(** * go-logs: a shallow embedding of the logging helper and its properties

    The repository holds two generations of one small library:

    - the level-aware records ([New], [LevelLabels], [WithFS], [JSONLogger]),
      modelled in [Module LevelAware];
    - the data-key records ([NewLog], [WithLevel], [WithFSys], the serializers
      [AsJSON] and [AsSingleLine], [DefaultLogger] and its [writerWrapper]),
      modelled in [Module Facade].

    Go code is effectful: options read the clock, writers perform I/O, and
    several functions may panic.  Every Go function is therefore embedded as a
    function in the monad [M] below: it takes the world, returns the world, and
    yields either a value or a panic.  A [*Log] argument is modelled by passing
    the record in and handing the (possibly updated) record back. *)

From Stdlib Require Import ZArith Lia List Strings.Byte Numbers.DecimalString.
From stdpp Require Import base option list strings gmap sorting.

#[local] Set Warnings "-register-all".
Local Open Scope Z_scope.

(** ** Go prelude *)

Module Go.

(** A [[]byte]. *)
Definition bytes := list byte.

(** [[]byte(s)]. *)
Definition bytes_of_string (s : string) : bytes := String.list_byte_of_string s.

(** Go's [int] on the 64-bit targets: a [Z] kept in [-2^63, 2^63) by
    wrapping after every addition. *)
Definition int := Z.
Definition int_min : Z := - 2 ^ 63.
Definition int_max : Z := 2 ^ 63 - 1.
Definition int_wrap (z : Z) : int := (z + 2 ^ 63) mod 2 ^ 64 - 2 ^ 63.
Definition int_add (x y : int) : int := int_wrap (x + y).
Definition in_int (z : Z) : Prop := int_min <= z <= int_max.

(** The sum of a list of numbers, without wrapping. *)
Definition Zsum (l : list Z) : Z := foldr Z.add 0 l.

(** The string of one line feed, Go's ["\n"]. *)
Definition LF : string := String (Ascii.ascii_of_nat 10) EmptyString.

(** [strconv.Itoa]. *)
Definition strconv_Itoa (n : int) : string := NilZero.string_of_int (Z.to_int n).

(** [time.Time], as nanoseconds since the Unix epoch; [t.Unix()]. *)
Definition Time := Z.
Definition Unix (t : Time) : Z := t / 1000000000.

(** Values of interface type [error].  [errorString] stands for every error
    that is only its message ([errors.New], [fmt.Errorf], the errors of the
    standard library); [SkipDir] and [SkipAll] are the two sentinels of
    [io/fs], which [fs.WalkDir] compares by identity; [errWrapper] is the
    repository's own [type errWrapper []error]. *)
Inductive error : Type :=
| SkipDir
| SkipAll
| errorString (s : string)
| errWrapper (ew : list error).

(** The loop of [errWrapper.Error], over an [Error] for the elements:
    [out] starts empty; at index [i > 0] the separator is appended before
    the message of [err]. *)
Fixpoint errWrapper_loop (Error : error -> string) (i : nat) (ew : list error)
    (out : string) : string :=
  match ew with
  | [] => out
  | err :: rest =>
      let out := if (0 <? i)%nat then out +:+ ", " else out in
      errWrapper_loop Error (S i) rest (out +:+ Error err)
  end.

(** The method [Error()] of the interface. *)
Fixpoint Error (e : error) : string :=
  match e with
  | SkipDir => "skip this directory"
  | SkipAll => "skip everything and stop the walk"
  | errorString s => s
  | errWrapper ew => errWrapper_loop Error 0 ew ""
  end.

(** [errWrapper.Error]. *)
Definition errWrapper_Error (ew : list error) : string :=
  errWrapper_loop Error 0 ew "".

(** A sink, [io.Writer]: a non-nil writer is named by a number. *)
Definition Writer := nat.

(** What the program did to the outside, oldest first. *)
Inductive event : Type :=
| EvNow (t : Time)
| EvWrite (w : Writer) (b : bytes) (n : int) (err : option error)
| EvMkdir (name : string) (err : option error)
| EvCreate (name : string) (res : error + Writer).

Definition World := list event.

(** The outside: how a sink answers a [Write] and what the clock and the
    runtime say, each as a function of what happened so far. *)
Class Env : Type := {
  sink_Write : Writer -> World -> bytes -> int * option error;
  clock : World -> Time;
  (* [runtime.Caller(skip)] followed by [runtime.FuncForPC(pc).Name()]:
     function name, file and line of the frame, or nothing ([ok = false]) *)
  runtime_Caller : int -> World -> option (string * string * int);
  (* [os.Mkdir(name, os.ModePerm)], [errors.Is(err, os.ErrExist)] and
     [os.Create(name)] *)
  mkdir : string -> World -> option error;
  is_ErrExist : error -> bool;
  create : string -> World -> error + Writer;
}.

(** What a [panic] carries. *)
Inductive panic_value : Type :=
| PanicError (e : error)          (* panic(err) *)
| PanicRuntime (msg : string).    (* a run-time panic *)

Inductive outcome (A : Type) : Type :=
| Ok (a : A)
| Panic (v : panic_value).
Arguments Ok {A} a.
Arguments Panic {A} v.

(** The monad of Go code: state is the world, failure is a panic.  A panic
    keeps the world as it was when it was raised. *)
Definition M (A : Type) : Type := World -> outcome A * World.

Definition ret {A} (a : A) : M A := fun w => (Ok a, w).

Definition bind {A B} (m : M A) (k : A -> M B) : M B :=
  fun w => match m w with
           | (Ok a, w') => k a w'
           | (Panic v, w') => (Panic v, w')
           end.

Definition panic {A} (v : panic_value) : M A := fun w => (Panic v, w).

(** [w.Write(b)] on a sink. *)
Definition Writer_Write `{Env} (s : Writer) (b : bytes) : M (int * option error) :=
  fun w => let '(n, err) := sink_Write s w b in
           (Ok (n, err), w ++ [EvWrite s b n err]).

(** [time.Now()]. *)
Definition time_Now `{Env} : M Time :=
  fun w => let t := clock w in (Ok t, w ++ [EvNow t]).

(** [os.Mkdir(name, os.ModePerm)]. *)
Definition os_Mkdir `{Env} (name : string) : M (option error) :=
  fun w => let err := mkdir name w in (Ok err, w ++ [EvMkdir name err]).

(** [os.Create(name)]. *)
Definition os_Create `{Env} (name : string) : M (error + Writer) :=
  fun w => let res := create name w in (Ok res, w ++ [EvCreate name res]).

(** [bytes.Join(s, sep)]. *)
Fixpoint bytes_Join (s : list bytes) (sep : bytes) : bytes :=
  match s with
  | [] => []
  | [x] => x
  | x :: rest => x ++ sep ++ bytes_Join rest sep
  end.

(** The element type [FileInfo] that [WithFS] and [WithFSys] declare. *)
Record FileInfo : Type := { Path : string; Size : int }.

(** Values of type [any] that the examples of the repository put into a
    record: strings, numbers, times, [os.Args], a file listing, and a channel
    as a value that no serializer can encode. *)
Inductive any : Type :=
| AString (s : string)
| AInt (n : int)
| ATime (t : Time)
| AStrings (ss : list string)
| AFiles (files : list FileInfo)
| AChan (id : nat).

(** A [map[string]any]; [None] is the nil map. *)
Abbreviation data := (option (gmap string any)).

(** [m[key] = value]: a run-time panic on the nil map. *)
Definition map_assign (m : data) (key : string) (value : any) : M data :=
  match m with
  | None => panic (PanicRuntime "assignment to entry in nil map")
  | Some m => ret (Some (<[key := value]> m))
  end.

(** [m[key]]: reading the nil map finds nothing. *)
Definition map_index (m : data) (key : string) : option any :=
  match m with
  | None => None
  | Some m => m !! key
  end.

(** *** [io/fs]: a file system and [fs.WalkDir]

    A file system is the tree below its root.  For a file, [info] is what
    [d.Info()] answers (an error, or the size); for a directory,
    [readdir_err] is the error [fs.ReadDir] reports besides the entries it
    could read. *)
Inductive fsnode : Type :=
| File (name : string) (info : error + int)
| Dir (name : string) (readdir_err : option error) (entries : list fsnode).

(** An [fs.FS]: what [fs.Stat(fsys, ".")] answers. *)
Definition FS := (error + fsnode)%type.

Definition Name (d : fsnode) : string :=
  match d with File name _ => name | Dir name _ _ => name end.

Definition IsDir (d : fsnode) : bool :=
  match d with File _ _ => false | Dir _ _ _ => true end.

(** [d.Info()]; a directory entry always has its info in this model. *)
Definition Info (d : fsnode) : error + int :=
  match d with File _ info => info | Dir _ _ _ => inr 0 end.

(** [path.Join(name, elem)] for a clean [name] and a plain entry name. *)
Definition path_Join (name elem : string) : string :=
  if decide (name = ".") then elem else name +:+ "/" +:+ elem.

(** The arguments [(d, err)] of a [fs.WalkDirFunc]: [fs.WalkDir] calls it with
    [err == nil] on an entry, or with the error of a failed [Stat] (then
    [d == nil]) or [ReadDir]. *)
Inductive visit : Type :=
| Visit (d : fsnode)
| VisitErr (d : option fsnode) (err : error).

Definition is_SkipDir (e : error) : bool :=
  match e with SkipDir => true | _ => false end.
Definition is_SkipAll (e : error) : bool :=
  match e with SkipAll => true | _ => false end.

Section WalkDir.
(** The callback closes over variables it updates: their values are [S]. *)
Context {S : Type} (fn : string -> visit -> S -> option error * S).

(** [fs.walkDir]. *)
Fixpoint walkDir (name : string) (d : fsnode) (s : S) : option error * S :=
  match fn name (Visit d) s with
  | (Some err, s) =>
      if IsDir d && is_SkipDir err then (None, s) else (Some err, s)
  | (None, s) =>
      match d with
      | File _ _ => (None, s)
      | Dir _ readdir_err dirs =>
          let '(err, s) :=
            match readdir_err with
            | Some err => fn name (VisitErr (Some d) err) s
            | None => (None, s)
            end in
          match err with
          | Some err => if is_SkipDir err then (None, s) else (Some err, s)
          | None =>
              (fix range (dirs : list fsnode) (s : S) : option error * S :=
                 match dirs with
                 | [] => (None, s)
                 | d1 :: rest =>
                     match walkDir (path_Join name (Name d1)) d1 s with
                     | (Some err, s) =>
                         if is_SkipDir err then (None, s) else (Some err, s)
                     | (None, s) => range rest s
                     end
                 end) dirs s
          end
      end
  end.

(** [fs.WalkDir(fsys, root, fn)]. *)
Definition WalkDir (fsys : FS) (root : string) (s : S) : option error * S :=
  let '(err, s) :=
    match fsys with
    | inl err => fn root (VisitErr None err) s
    | inr d => walkDir root d s
    end in
  match err with
  | Some err => if is_SkipDir err || is_SkipAll err then (None, s) else (Some err, s)
  | None => (None, s)
  end.
End WalkDir.

(** The callback that [WithFS] and [WithFSys] pass to [fs.WalkDir]; it
    appends to the captured slice [files]. *)
Definition collect (path : string) (v : visit) (files : list FileInfo)
    : option error * list FileInfo :=
  match v with
  | VisitErr _ err => (Some err, files)
  | Visit d =>
      if IsDir d then (None, files)
      else match Info d with
           | inl err => (Some err, files)
           | inr size => (None, files ++ [{| Path := path; Size := size |}])
           end
  end.

(** The files below [d] as a walk that meets no error lists them: in the
    order of the walk, each under the path the walk gives it, with its size.
    A file whose [Info] fails has no entry.  The vocabulary of the statements
    about the listing. *)
Fixpoint files_of (name : string) (d : fsnode) : list FileInfo :=
  match d with
  | File _ (inr size) => [{| Path := name; Size := size |}]
  | File _ (inl _) => []
  | Dir _ _ dirs =>
      List.flat_map (fun d1 => files_of (path_Join name (Name d1)) d1) dirs
  end.

(** A tree in which every [Info] and every [ReadDir] succeeds. *)
Fixpoint healthy (d : fsnode) : bool :=
  match d with
  | File _ (inr _) => true
  | File _ (inl _) => false
  | Dir _ None dirs => forallb healthy dirs
  | Dir _ (Some _) _ => false
  end.

End Go.
Export Go.

Declare Scope go_scope.
Delimit Scope go_scope with go.
Notation "'let*' p ':=' m 'in' k" := (bind m (fun p => k))
  (at level 10, p pattern, m at level 100, k at level 200) : go_scope.
Local Open Scope go_scope.


(** ** The data-key generation: [NewLog], [DefaultLogger], [writerWrapper] *)

Module Facade.

(** [type Log struct { Message string; Data map[string]any }]. *)
Record Log : Type := { Message : string; Data : data }.

(** [type LogOption func(l *Log)]. *)
Definition LogOption := Log -> M Log.

(** [for _, opt := range opts { opt(l) }]. *)
Fixpoint apply_options (opts : list LogOption) (l : Log) : M Log :=
  match opts with
  | [] => ret l
  | opt :: rest => let* l := opt l in apply_options rest l
  end.

(** [NewLog]. *)
Definition NewLog (msg : string) (opts : list LogOption) : M Log :=
  let l := {| Message := msg; Data := Some ∅ |} in
  apply_options opts l.

Definition dataKeyPrefix : string := "__".
Definition DataKeyTimestamp : string := dataKeyPrefix +:+ "created_at".
Definition DataKeyLevel : string := dataKeyPrefix +:+ "level".
Definition DataKeySrcFunction : string := dataKeyPrefix +:+ "src_function".
Definition DataKeySrcFileLine : string := dataKeyPrefix +:+ "src_file_line".
Definition DataKeyFSys : string := dataKeyPrefix +:+ "fsys".

(** The statement [l.Data[key] = value]. *)
Definition set_Data (l : Log) (key : string) (value : any) : M Log :=
  let* m := map_assign (Data l) key value in
  ret {| Message := Message l; Data := m |}.

(** [WithData]. *)
Definition WithData (key : string) (value : any) : LogOption :=
  fun l => set_Data l key value.

(** [WithTimestamp]. *)
Definition WithTimestamp `{Env} : LogOption :=
  fun l => let* t := time_Now in set_Data l DataKeyTimestamp (ATime t).

(** [WithLevel]. *)
Definition WithLevel (lvl : string) : LogOption :=
  fun l => set_Data l DataKeyLevel (AString lvl).

(** [WithSrc]. *)
Definition WithSrc `{Env} : LogOption :=
  fun l w =>
    match runtime_Caller 2 w with
    | None => ret l w
    | Some (fname, file, line) =>
        (let* l := set_Data l DataKeySrcFunction (AString fname) in
         set_Data l DataKeySrcFileLine
           (AString (file +:+ ":" +:+ strconv_Itoa line))) w
    end.

(** [WithFSys]. *)
Definition WithFSys (fsys : FS) : LogOption :=
  fun l =>
    let files := [] in
    let '(err, files) := WalkDir collect fsys "." files in
    let* l := match err with
              | Some err => set_Data l DataKeyFSys (AString (Error err))
              | None => ret l
              end in
    set_Data l DataKeyFSys (AFiles files).

(** An option sets the key [k] when, on every record with a data map, it
    returns and leaves under [k] the value [f w], [w] being the world it
    started from: the vocabulary of the statements about overwriting. *)
Definition sets_key (o : LogOption) (k : string) (f : World -> any) : Prop :=
  forall l w, is_Some (Data l) ->
    exists l' w', o l w = (Ok l', w') /\ map_index (Data l') k = Some (f w).

(** [type Serializer func(l *Log) []byte]: a serializer is handed the pointer,
    so it yields the record as it leaves it besides the bytes. *)
Definition Serializer := Log -> M (Log * bytes).

Section Serializers.
(** [json.MarshalIndent] with tab indentation, and [fmt.Sprintf] with the
    verbs [%q %#v], of the standard library. *)
Variable json_MarshalIndent : Log -> error + bytes.
Variable fmt_Sprintf_q_v : string -> data -> string.

(** [AsJSON]. *)
Definition AsJSON : Serializer :=
  fun l =>
    match json_MarshalIndent l with
    | inl err => panic (PanicError err)
    | inr b => ret (l, b)
    end.

(** [AsSingleLine]. *)
Definition AsSingleLine : Serializer :=
  fun l => ret (l, bytes_of_string (fmt_Sprintf_q_v (Message l) (Data l))).
End Serializers.

(** [type LogLevel int], its constants and labels. *)
Definition LogLevel := int.
Definition LevelUnknown : LogLevel := 0.
Definition LevelDebug : LogLevel := 1.
Definition LevelInfo : LogLevel := 2.
Definition LevelWarn : LogLevel := 3.
Definition LevelError : LogLevel := 4.
Definition LevelPanic : LogLevel := 5.

Definition levelLabels : list string :=
  ["UNKNOWN"; "DEBUG"; "INFO"; "WARN"; "ERROR"; "PANIC"].

(** [LogLevel.String]: [levelLabels[lvl]], with the bounds check of an
    array index. *)
Definition LogLevel_String (lvl : LogLevel) : M string :=
  if decide (0 <= lvl < Z.of_nat (length levelLabels)) then
    match levelLabels !! Z.to_nat lvl with
    | Some s => ret s
    | None => panic (PanicRuntime "index out of range")
    end
  else panic (PanicRuntime "index out of range").

(** [type writerWrapper []io.Writer] and [newWriterWrapper]. *)
Definition writerWrapper := list Writer.
Definition newWriterWrapper (w : list Writer) : writerWrapper := w.

(** The loop of [writerWrapper.Write].  [errs] starts as the nil slice and
    [append] never yields an empty one, so [errs != nil] is [errs <> []]. *)
Fixpoint Write_range `{Env} (ww : writerWrapper) (b : bytes)
    (numBytesWritten : int) (errs : list error) : M (int * list error) :=
  match ww with
  | [] => ret (numBytesWritten, errs)
  | w :: rest =>
      let* (n, err) := Writer_Write w b in
      let errs := match err with Some err => errs ++ [err] | None => errs end in
      Write_range rest b (int_add numBytesWritten n) errs
  end.

(** [writerWrapper.Write]. *)
Definition writerWrapper_Write `{Env} (ww : writerWrapper) (b : bytes)
    : M (int * option error) :=
  let* (numBytesWritten, errs) := Write_range ww b 0 [] in
  match errs with
  | _ :: _ => ret (numBytesWritten, Some (errWrapper errs))
  | [] => ret (numBytesWritten, None)
  end.

(** What the sinks of [ww] answer when [b] is written to each of them in
    turn, from the world [w] on: the vocabulary of the statements about
    [writerWrapper.Write]. *)
Fixpoint responses `{Env} (ww : writerWrapper) (b : bytes) (w : World)
    : list (int * option error) :=
  match ww with
  | [] => []
  | s :: rest =>
      let r := sink_Write s w b in
      r :: responses rest b (w ++ [EvWrite s b r.1 r.2])
  end.

(** The write events of one attempt per sink of [ww], in the order of [ww],
    with the answers [rs]. *)
Definition attempts (ww : writerWrapper) (b : bytes)
    (rs : list (int * option error)) : list event :=
  zip_with (fun s r => EvWrite s b r.1 r.2) ww rs.

(** [type DefaultLogger struct]. *)
Record DefaultLogger : Type := {
  Writers : list Writer;
  Serializer_ : Serializer;
  BaseOptions : list LogOption;
  LogPrefix : string;
  LogSuffix : string;
}.

(** The bytes of one framed record: prefix, serialized record, suffix, line
    feed. *)
Definition framed (dl : DefaultLogger) (ser : bytes) : bytes :=
  bytes_of_string (LogPrefix dl) ++ ser
  ++ bytes_of_string (LogSuffix dl) ++ [x0a]%byte.

(** [type LoggerFunc func(l *Log) error]: the record comes back as the call
    leaves it. *)
Definition LoggerFunc_ := Log -> M (Log * option error).

(** [DefaultLogger.LoggerFunc].  The mutex orders concurrent calls; one call
    run alone takes and releases it, which leaves no trace here. *)
Definition LoggerFunc `{Env} (dl : DefaultLogger) : LoggerFunc_ * option error :=
  let w := newWriterWrapper (Writers dl) in
  (fun l =>
     let* l := apply_options (BaseOptions dl) l in
     let* (l, ser) := Serializer_ dl l in
     let b := bytes_Join [bytes_of_string (LogPrefix dl);
                          ser;
                          bytes_of_string (LogSuffix dl +:+ LF)] [] in
     let* (_, err) := writerWrapper_Write w b in
     ret (l, err),
   None).

(** An option that returns on every record with a data map, keeps the
    message and the data map, and leaves every key outside [ks] as it was. *)
Definition touches_only (o : LogOption) (ks : list string) : Prop :=
  forall l w, is_Some (Data l) ->
    exists l' w', o l w = (Ok l', w')
      /\ Message l' = Message l /\ is_Some (Data l')
      /\ forall k, k ∉ ks -> map_index (Data l') k = map_index (Data l) k.

(** What each option of the library assigns: [writes o k w v] says that the
    option [o], started in the world [w], has the assignment
    [l.Data[k] = v] in its body.  [WithSrc] has its two assignments only when
    the frame is found. *)
Inductive writes {E : Env} : LogOption -> string -> World -> any -> Prop :=
| writes_WithData key value w :
    writes (WithData key value) key w value
| writes_WithTimestamp w :
    writes WithTimestamp DataKeyTimestamp w (ATime (clock w))
| writes_WithLevel lvl w :
    writes (WithLevel lvl) DataKeyLevel w (AString lvl)
| writes_WithSrc_function w fname file line :
    runtime_Caller 2 w = Some (fname, file, line) ->
    writes WithSrc DataKeySrcFunction w (AString fname)
| writes_WithSrc_file_line w fname file line :
    runtime_Caller 2 w = Some (fname, file, line) ->
    writes WithSrc DataKeySrcFileLine w
      (AString (file +:+ ":" +:+ strconv_Itoa line))
| writes_WithFSys fsys w :
    writes (WithFSys fsys) DataKeyFSys w
      (AFiles (WalkDir collect fsys "." []).2).

(** *** Maps in [encoding/json] and in [fmt]

    Go visits the entries of a map in an order that the runtime chooses anew
    for every loop over it.  The map encoder of [encoding/json] and the map
    printer of [fmt] both collect the entries in the order of such a loop,
    sort them by key ([strings.Compare] on the keys) and write them in the
    sorted order.  What is written for the message and for the entries so
    ordered is left to [encode] and [format]. *)
Definition by_key (x y : string * any) : Prop := String.le x.1 y.1.

#[export] Instance by_key_dec : RelDecision by_key :=
  fun x y => decide (String.le x.1 y.1).





End Facade.

(** ** The level-aware generation: [New], [WithFS], [JSONLogger] *)

Module LevelAware.

(** [type Level int], its constants and labels. *)
Definition Level := int.
Definition LevelUnknown : Level := 0.
Definition LevelDebug : Level := 1.
Definition LevelInfo : Level := 2.
Definition LevelWarn : Level := 3.
Definition LevelError : Level := 4.
Definition LevelPanic : Level := 5.

Definition LevelLabels : list string :=
  ["UNKNOWN"; "DEBUG"; "INFO"; "WARN"; "ERROR"; "PANIC"].

(** The expression [LevelLabels[lvl]]: an index outside the array is a
    run-time panic. *)
Definition LevelLabels_index (lvl : Level) : M string :=
  if decide (0 <= lvl < Z.of_nat (length LevelLabels)) then
    match LevelLabels !! Z.to_nat lvl with
    | Some s => ret s
    | None => panic (PanicRuntime "index out of range")
    end
  else panic (PanicRuntime "index out of range").

(** [type Log struct { CreatedAt time.Time; Level string; Message string;
    Data map[string]any }]. *)
Record Log : Type := {
  CreatedAt : Time;
  Level_ : string;
  Message : string;
  Data : data;
}.

(** [type LogOption func(l *Log)]. *)
Definition LogOption := Log -> M Log.

(** [for _, opt := range opts { opt(l) }]. *)
Fixpoint apply_options (opts : list LogOption) (l : Log) : M Log :=
  match opts with
  | [] => ret l
  | opt :: rest => let* l := opt l in apply_options rest l
  end.

(** [New].  The fields of the literal are evaluated in the order they are
    written: the clock is read, then the label is looked up. *)
Definition New `{Env} (lvl : Level) (msg : string) (opts : list LogOption)
    : M Log :=
  let* now := time_Now in
  let* label := LevelLabels_index lvl in
  let l := {| CreatedAt := now; Level_ := label; Message := msg;
              Data := Some ∅ |} in
  apply_options opts l.

(** The statement [l.Data[key] = value]. *)
Definition set_Data (l : Log) (key : string) (value : any) : M Log :=
  let* m := map_assign (Data l) key value in
  ret {| CreatedAt := CreatedAt l; Level_ := Level_ l; Message := Message l;
         Data := m |}.

(** [WithData]. *)
Definition WithData (key : string) (value : any) : LogOption :=
  fun l => set_Data l key value.

(** [WithSourceCodeLocation]. *)
Definition WithSourceCodeLocation `{Env} (key : string) (offset : int)
    : LogOption :=
  fun l w =>
    match runtime_Caller (int_add 2 offset) w with
    | None => ret l w
    | Some (fname, file, line) =>
        set_Data l key
          (AString (fname +:+ " at " +:+ file +:+ ":" +:+ strconv_Itoa line)) w
    end.

(** [WithFS]. *)
Definition WithFS (key : string) (fsys : FS) : LogOption :=
  fun l =>
    let files := [] in
    let '(err, files) := WalkDir collect fsys "." files in
    let* l := match err with
              | Some err => set_Data l key (AString (Error err))
              | None => ret l
              end in
    set_Data l key (AFiles files).

(** As in [Facade]: the option returns and leaves [f w] under [k]. *)
Definition sets_key (o : LogOption) (k : string) (f : World -> any) : Prop :=
  forall l w, is_Some (Data l) ->
    exists l' w', o l w = (Ok l', w') /\ map_index (Data l') k = Some (f w).

(** An option that returns and writes to the data map only, as the options
    of the library do. *)
Definition data_only (o : LogOption) : Prop :=
  forall l w, is_Some (Data l) ->
    exists l' w', o l w = (Ok l', w')
      /\ CreatedAt l' = CreatedAt l /\ Level_ l' = Level_ l
      /\ Message l' = Message l /\ is_Some (Data l').

(** The canonical label of each level of the enumeration. *)
Definition label_of (lvl : Level) : string :=
  match lvl with
  | 0 => "UNKNOWN"
  | 1 => "DEBUG"
  | 2 => "INFO"
  | 3 => "WARN"
  | 4 => "ERROR"
  | 5 => "PANIC"
  | _ => ""
  end.

(** [type JSONLogger struct { out io.Writer; tries int; mu sync.RWMutex }];
    the mutex orders concurrent calls and has no part in one call. *)
Record JSONLogger : Type := { out : Writer; tries : int }.

(** [NewJSONLogger]: the logger, or the error. *)
Definition NewJSONLogger `{Env} (dirname : string) : M (error + JSONLogger) :=
  let* err := os_Mkdir dirname in
  let err := match err with
             | Some e => if is_ErrExist e then None else Some e
             | None => None
             end in
  match err with
  | Some err =>
      ret (inl (errorString ("failed to make directory: " +:+ Error err)))
  | None =>
      let* now := time_Now in
      let* f := os_Create (dirname +:+ "/logs." +:+ strconv_Itoa (Unix now)
                           +:+ ".txt") in
      match f with
      | inl err =>
          ret (inl (errorString ("failed to make create log file: "
                                 +:+ Error err)))
      | inr f => ret (inr {| out := f; tries := 5 |})
      end
  end.

Section JSONLoggerLog.
Context `{Env}.
(** [json.MarshalIndent] with tab indentation, of the standard library. *)
Variable json_MarshalIndent : Log -> error + bytes.

(** The loop [for i := 0; i < jfl.tries; i++] of [JSONLogger.Log], by the
    number of rounds [jfl.tries - i] it has left: [continue] goes on with one
    round less, [break] leaves. *)
Fixpoint Log_for (rounds : nat) (jfl : JSONLogger) (l : Log) : M unit :=
  match rounds with
  | O => ret tt
  | S rounds =>
      match json_MarshalIndent l with
      | inl err => Log_for rounds jfl l
      | inr b =>
          let* (_, err) := Writer_Write (out jfl) (b ++ [x2c; x0a]%byte) in
          match err with
          | Some err => Log_for rounds jfl l
          | None => ret tt
          end
      end
  end.

(** [JSONLogger.Log]. *)
Definition JSONLogger_Log (jfl : JSONLogger) (l : Log) : M (option error) :=
  let* _ := Log_for (Z.to_nat (tries jfl)) jfl l in
  ret None.

(** [retried s b w k ok w']: from the world [w], [b] was written to the sink
    [s] [k] times in a row, leaving the world [w']; every write failed, but
    for the last one when [ok] holds.  The vocabulary of the statement about
    the retry loop. *)
Inductive retried (s : Writer) (b : bytes) (w : World)
    : nat -> bool -> World -> Prop :=
| retried_none : retried s b w 0 false w
| retried_fail k w' n err :
    retried s b w k false w' ->
    sink_Write s w' b = (n, Some err) ->
    retried s b w (S k) false (w' ++ [EvWrite s b n (Some err)])
| retried_ok k w' n :
    retried s b w k false w' ->
    sink_Write s w' b = (n, None) ->
    retried s b w (S k) true (w' ++ [EvWrite s b n None]).
End JSONLoggerLog.

(** As in [Facade]: the assignments in the bodies of the options. *)
Inductive writes {E : Env} : LogOption -> string -> World -> any -> Prop :=
| writes_WithData key value w :
    writes (WithData key value) key w value
| writes_WithSourceCodeLocation key offset w fname file line :
    runtime_Caller (int_add 2 offset) w = Some (fname, file, line) ->
    writes (WithSourceCodeLocation key offset) key w
      (AString (fname +:+ " at " +:+ file +:+ ":" +:+ strconv_Itoa line))
| writes_WithFS key fsys w :
    writes (WithFS key fsys) key w (AFiles (WalkDir collect fsys "." []).2).

End LevelAware.

(** ** A concrete outside, to run the definitions on *)

Module Demo.

(** Sink 1 always fails and takes nothing, sink 2 takes three bytes and
    fails, every other sink takes all it is given.  The clock counts the
    events; the caller two frames up is [main.main]; the directory can be
    made and the log file is sink 0, or the failing sink 1 for a directory
    named [full]. *)
#[export] Instance env : Env := {|
  sink_Write s w b :=
    match s with
    | 1%nat => (0, Some (errorString "stub: write failed"))
    | 2%nat => (3, Some (errorString "short write"))
    | _ => (Z.of_nat (length b), None)
    end;
  clock w := 1700000000000000000 + Z.of_nat (length w);
  runtime_Caller skip w :=
    if decide (skip = 2) then Some ("main.main", "/src/main.go", 45) else None;
  mkdir name w := None;
  is_ErrExist e := false;
  create name w := if String.prefix "full/" name then inr 1%nat else inr 0%nat;
|}.

Definition quote : string := String (Ascii.ascii_of_nat 34) EmptyString.
Definition tab : string := String (Ascii.ascii_of_nat 9) EmptyString.

Definition is_chan (v : any) : bool :=
  match v with AChan _ => true | _ => false end.

(** The members of the object for the data map, one per line at depth two.
    Strings are written between quotes as they are and numbers in decimal,
    which is what [encoding/json] does for the strings of the examples; the
    other values are written [null]. *)
Definition json_members (m : gmap string any) : list string :=
  (fun kv : string * any =>
     tab +:+ tab +:+ quote +:+ kv.1 +:+ quote +:+ ": " +:+
     match kv.2 with
     | AString s => quote +:+ s +:+ quote
     | AInt n => strconv_Itoa n
     | _ => "null"
     end) <$> map_to_list m.

(** What [json.MarshalIndent] answers for a message and a data map: an
    error when a value is a channel, else the indented object, the member
    [data] left out when the map is empty or nil. *)
Definition json_object (msg : string) (d : data) : error + bytes :=
  let m := default ∅ d in
  if existsb is_chan (map_to_list m).*2 then
    inl (errorString "json: unsupported type: chan int")
  else
    inr (bytes_of_string
      ("{" +:+ LF +:+ tab +:+ quote +:+ "message" +:+ quote +:+ ": "
       +:+ quote +:+ msg +:+ quote +:+
       (if decide (m = ∅) then ""
        else "," +:+ LF +:+ tab +:+ quote +:+ "data" +:+ quote +:+ ": {" +:+ LF
             +:+ String.concat ("," +:+ LF) (json_members m)
             +:+ LF +:+ tab +:+ "}")
       +:+ LF +:+ "}")).

Definition json_MarshalIndent (l : Facade.Log) : error + bytes :=
  json_object (Facade.Message l) (Facade.Data l).

(** The level-aware record has two more members, left out of this stand-in. *)
Definition json_MarshalIndent' (l : LevelAware.Log) : error + bytes :=
  json_object (LevelAware.Message l) (LevelAware.Data l).

(** A stand-in for [fmt.Sprintf] with [%q %#v]: the message between quotes
    and the number of keys. *)
Definition fmt_Sprintf_q_v (msg : string) (d : data) : string :=
  quote +:+ msg +:+ quote +:+ " map["
  +:+ strconv_Itoa (Z.of_nat (size (default ∅ d))) +:+ "]".

(** A directory with one file that can be read and one whose [Info] fails. *)
Definition broken_fs : FS :=
  inr (Dir "." None
         [File "a.txt" (inr 3);
          File "b.txt" (inl (errorString "stat b.txt: permission denied"));
          File "c.txt" (inr 7)]).

(** A logger on a buffer and on the failing stub, as in the scenario of the
    specification. *)
Definition two_sinks : Facade.DefaultLogger := {|
  Facade.Writers := [0%nat; 1%nat];
  Facade.Serializer_ := Facade.AsJSON json_MarshalIndent;
  Facade.BaseOptions := [Facade.WithLevel "INFO"];
  Facade.LogPrefix := "app ";
  Facade.LogSuffix := ",";
|}.

(** A record that holds a channel. *)
Definition with_chan : Facade.Log :=
  {| Facade.Message := "hey"; Facade.Data := Some {[ "c" := AChan 0 ]} |}.

Definition hey : Facade.Log :=
  {| Facade.Message := "hey"; Facade.Data := Some ∅ |}.

(** The two records as the base option of [two_sinks] leaves them. *)
Definition hey_info : Facade.Log :=
  {| Facade.Message := "hey";
     Facade.Data := Some {[ Facade.DataKeyLevel := AString "INFO" ]} |}.

Definition with_chan_info : Facade.Log :=
  {| Facade.Message := "hey";
     Facade.Data := Some (<[ Facade.DataKeyLevel := AString "INFO" ]>
                            {[ "c" := AChan 0 ]}) |}.

(** A logger whose file takes no byte, and a record for it. *)
Definition full_disk : LevelAware.JSONLogger :=
  {| LevelAware.out := 1%nat; LevelAware.tries := 5 |}.

Definition disk_error : LevelAware.Log :=
  {| LevelAware.CreatedAt := 0; LevelAware.Level_ := "ERROR";
     LevelAware.Message := "disk"; LevelAware.Data := Some ∅ |}.

(** An outside in which nothing can be written or made and no frame is
    found. *)
Definition readonly : Env := {|
  sink_Write s w b := (0, Some (errorString "write: read-only file system"));
  clock w := 0;
  runtime_Caller skip w := None;
  mkdir name w := Some (errorString "mkdir: read-only file system");
  is_ErrExist e := false;
  create name w := inl (errorString "open: read-only file system");
|}.

(** A directory with a file and a sub-directory, all readable. *)
Definition tree : fsnode :=
  Dir "." None [File "a.txt" (inr 3); Dir "sub" None [File "b.txt" (inr 5)]].

(** A logger of single lines on a buffer, and one with no sink at all. *)
Definition single_line : Facade.DefaultLogger := {|
  Facade.Writers := [0%nat];
  Facade.Serializer_ := Facade.AsSingleLine fmt_Sprintf_q_v;
  Facade.BaseOptions := [Facade.WithLevel "INFO"];
  Facade.LogPrefix := "";
  Facade.LogSuffix := "";
|}.

Definition no_sinks : Facade.DefaultLogger := {|
  Facade.Writers := [];
  Facade.Serializer_ := Facade.AsSingleLine fmt_Sprintf_q_v;
  Facade.BaseOptions := [];
  Facade.LogPrefix := "";
  Facade.LogSuffix := "";
|}.

(** A record with a level of its own, and one built without a data map. *)
Definition hey_debug : Facade.Log :=
  {| Facade.Message := "hey";
     Facade.Data := Some {[ Facade.DataKeyLevel := AString "DEBUG" ]} |}.

Definition no_data : Facade.Log :=
  {| Facade.Message := "hey"; Facade.Data := None |}.

(** A logger whose file takes every byte. *)
Definition to_file : LevelAware.JSONLogger :=
  {| LevelAware.out := 0%nat; LevelAware.tries := 5 |}.






(** A logger whose base option overwrites the key [c]. *)
Definition overwriting : Facade.DefaultLogger := {|
  Facade.Writers := [0%nat];
  Facade.Serializer_ := Facade.AsJSON json_MarshalIndent;
  Facade.BaseOptions := [Facade.WithData "c" (AString "ok")];
  Facade.LogPrefix := "";
  Facade.LogSuffix := "";
|}.

(** A logger with no base option, on the buffer. *)
Definition plain_json : Facade.DefaultLogger := {|
  Facade.Writers := [0%nat];
  Facade.Serializer_ := Facade.AsJSON json_MarshalIndent;
  Facade.BaseOptions := [];
  Facade.LogPrefix := "";
  Facade.LogSuffix := "";
|}.

End Demo.

(** * Properties *)

(** ** Arithmetic of [int] and of strings *)

Lemma int_wrap_in (z : Z) : in_int (int_wrap z).
Proof.
  unfold in_int, int_wrap, int_min, int_max.
  pose proof (Z.mod_pos_bound (z + 2 ^ 63) (2 ^ 64) ltac:(lia)). lia.
Qed.

Lemma int_wrap_id (z : Z) : in_int z -> int_wrap z = z.
Proof.
  unfold in_int, int_wrap, int_min, int_max. intros Hz.
  rewrite Z.mod_small; lia.
Qed.

Lemma int_wrap_add_l (a b : Z) : int_wrap (int_wrap a + b) = int_wrap (a + b).
Proof.
  unfold int_wrap.
  replace ((a + 2 ^ 63) mod 2 ^ 64 - 2 ^ 63 + b + 2 ^ 63)
    with ((a + 2 ^ 63) mod 2 ^ 64 + b) by lia.
  rewrite Z.add_mod_idemp_l by lia. f_equal. f_equal. lia.
Qed.

Lemma string_app_assoc (s1 s2 s3 : string) :
  (s1 +:+ s2) +:+ s3 = s1 +:+ (s2 +:+ s3).
Proof.
  induction s1 as [|c s1 IH]; [done|].
  change (String c ((s1 +:+ s2) +:+ s3) = String c (s1 +:+ s2 +:+ s3)).
  by rewrite IH.
Qed.

Lemma string_app_nil_r (s : string) : s +:+ "" = s.
Proof.
  induction s as [|c s IH]; [done|].
  change (String c (s +:+ "") = String c s). by rewrite IH.
Qed.

Lemma bytes_of_string_app (s1 s2 : string) :
  bytes_of_string (s1 +:+ s2) = bytes_of_string s1 ++ bytes_of_string s2.
Proof.
  unfold bytes_of_string, String.list_byte_of_string.
  induction s1 as [|c s1 IH]; [done|].
  change (String c s1 +:+ s2) with (String c (s1 +:+ s2)).
  simpl. by rewrite IH.
Qed.

(** ** [errWrapper.Error] joins the messages *)

Lemma concat_empty_cons (x : string) (l : list string) :
  String.concat "" (x :: l) = x +:+ String.concat "" l.
Proof. destruct l; [symmetry; apply string_app_nil_r | reflexivity]. Qed.

Lemma concat_cons_tail (sep x : string) (l : list string) :
  String.concat sep (x :: l)
  = x +:+ String.concat "" ((fun y => sep +:+ y) <$> l).
Proof.
  revert x. induction l as [|y l IH]; intros x.
  - symmetry. apply string_app_nil_r.
  - change (String.concat sep (x :: y :: l))
      with (x +:+ sep +:+ String.concat sep (y :: l)).
    by rewrite IH, fmap_cons, concat_empty_cons, string_app_assoc.
Qed.

Lemma errWrapper_loop_next (E : error -> string) (ew : list error) :
  forall (i : nat) (out : string), (0 < i)%nat ->
    errWrapper_loop E i ew out
    = out +:+ String.concat "" ((fun y => ", " +:+ y) <$> (E <$> ew)).
Proof.
  induction ew as [|e ew IH]; intros i out Hi.
  - symmetry. apply string_app_nil_r.
  - simpl errWrapper_loop. destruct (Nat.ltb_spec 0 i) as [_|]; [|lia].
    rewrite IH by lia.
    by rewrite !fmap_cons, concat_empty_cons, !string_app_assoc.
Qed.

Lemma errWrapper_Error_concat (ew : list error) :
  errWrapper_Error ew = String.concat ", " (Error <$> ew).
Proof.
  unfold errWrapper_Error. destruct ew as [|e ew]; [done|].
  rewrite fmap_cons, concat_cons_tail. simpl errWrapper_loop.
  by rewrite errWrapper_loop_next by lia.
Qed.

(** ** The sink aggregator *)

Section Aggregator.
Context `{Env}.
Import Facade.

Lemma responses_length ww b : forall w, length (responses ww b w) = length ww.
Proof. induction ww as [|s ww IH]; intros w; simpl; [done | by rewrite IH]. Qed.

Lemma Write_range_spec ww b :
  forall n errs w, in_int n ->
    Write_range ww b n errs w
    = (Ok (int_wrap (n + Zsum (responses ww b w).*1),
           errs ++ omap snd (responses ww b w)),
       w ++ attempts ww b (responses ww b w)).
Proof.
  induction ww as [|s ww IH]; intros n errs w Hn.
  - simpl. unfold ret. rewrite Z.add_0_r, int_wrap_id, !app_nil_r by done. done.
  - simpl. unfold bind at 1, Writer_Write.
    destruct (sink_Write s w b) as [k e] eqn:Hr. simpl.
    rewrite IH by apply int_wrap_in.
    unfold int_add. rewrite int_wrap_add_l, Z.add_assoc.
    rewrite <- !app_assoc. simpl.
    destruct e; [rewrite <- app_assoc |]; done.
Qed.

(** C1.  [writerWrapper.Write] writes [b] to every sink of the wrapper, once
    each and in the order of construction (the events it appends are exactly
    one write of [b] per sink, in order); it returns an error iff at least one
    sink returned one; and the count it returns is the sum, in Go's [int], of
    the counts that all the sinks reported, failing ones included: equal to
    the plain sum whenever that sum fits an [int]. *)
Theorem writerWrapper_Write_aggregates (ww : writerWrapper) (b : bytes)
    (w : World) :
  let rs := responses ww b w in
  exists (n : int) (err : option error),
    writerWrapper_Write ww b w = (Ok (n, err), w ++ attempts ww b rs)
    /\ length rs = length ww
    /\ (err <> None <-> Exists (fun r => r.2 <> None) rs)
    /\ n = int_wrap (Zsum rs.*1)
    /\ (in_int (Zsum rs.*1) -> n = Zsum rs.*1).
Proof.
  intros rs. unfold writerWrapper_Write, bind.
  rewrite Write_range_spec by (unfold in_int, int_min, int_max; lia).
  fold rs. simpl.
  assert (Hex : omap snd rs <> [] <-> Exists (fun r => r.2 <> None) rs).
  { clear. induction rs as [|[k [e|]] rs IH]; simpl.
    - split; [done | inversion 1].
    - split; [intros _; by left | done].
    - rewrite IH. split; [by right | inversion 1; done]. }
  destruct (omap snd rs) as [|e es] eqn:He; unfold ret;
    eexists _, _; (split; [reflexivity|]);
    (split; [apply responses_length|]);
    (split; [| split; [done | apply int_wrap_id]]).
  - rewrite <- Hex. split; intros; done.
  - rewrite <- Hex. split; intros; done.
Qed.

(** C2.  When one or more sinks fail, the error that [writerWrapper.Write]
    returns is the [errWrapper] of the errors of the failing sinks, in the
    order in which the sinks were declared, and its message is their
    messages joined with a comma and a space. *)
Theorem aggregated_error_message (ww : writerWrapper) (b : bytes) (w : World) :
  let rs := responses ww b w in
  Exists (fun r => r.2 <> None) rs ->
  exists (n : int) (err : error) (w' : World),
    writerWrapper_Write ww b w = (Ok (n, Some err), w')
    /\ err = errWrapper (omap snd rs)
    /\ Error err = String.concat ", " (Error <$> omap snd rs).
Proof.
  intros rs Hfail. unfold writerWrapper_Write, bind.
  rewrite Write_range_spec by (unfold in_int, int_min, int_max; lia).
  fold rs. simpl.
  destruct (omap snd rs) as [|e es] eqn:He.
  - exfalso. clear -Hfail He.
    induction rs as [|[k [e|]] rs IH]; inversion Hfail; subst; simpl in *;
      try done. by apply IH.
  - unfold ret. eexists _, _, _. split; [reflexivity|]. split; [done|].
    exact (errWrapper_Error_concat (e :: es)).
Qed.
End Aggregator.

(** ** Options *)

Lemma map_index_assign (m : gmap string any) (key : string) (value : any) :
  map_index (Some (<[key := value]> m)) key = Some value.
Proof. apply lookup_insert_eq. Qed.

Section FacadeOptions.
Context `{Env}.
Import Facade.

Lemma apply_options_app (pre post : list LogOption) (l : Log) (w : World) :
  apply_options (pre ++ post) l w
  = match apply_options pre l w with
    | (Ok l', w') => apply_options post l' w'
    | (Panic v, w') => (Panic v, w')
    end.
Proof.
  revert l w. induction pre as [|o pre IH]; intros l w; [done|].
  simpl. unfold bind. destruct (o l w) as [[l'|v] w']; [apply IH | done].
Qed.

Lemma set_Data_run (l : Log) (m : gmap string any) (key : string) (value : any)
    (w : World) :
  Data l = Some m ->
  set_Data l key value w
  = (Ok {| Message := Message l; Data := Some (<[key := value]> m) |}, w).
Proof. intros Hm. unfold set_Data. rewrite Hm. done. Qed.

Lemma WithData_sets_key key value :
  sets_key (WithData key value) key (fun _ => value).
Proof.
  intros l w [m Hm]. unfold WithData. rewrite (set_Data_run _ m) by done.
  eexists _, _. split; [done|]. apply map_index_assign.
Qed.

Lemma WithLevel_sets_key lvl :
  sets_key (WithLevel lvl) DataKeyLevel (fun _ => AString lvl).
Proof.
  intros l w [m Hm]. unfold WithLevel. rewrite (set_Data_run _ m) by done.
  eexists _, _. split; [done|]. apply map_index_assign.
Qed.

Lemma WithTimestamp_sets_key :
  sets_key WithTimestamp DataKeyTimestamp (fun w => ATime (clock w)).
Proof.
  intros l w [m Hm]. unfold WithTimestamp, bind, time_Now.
  rewrite (set_Data_run _ m) by done.
  eexists _, _. split; [done|]. apply map_index_assign.
Qed.

Lemma WithFSys_run (fsys : FS) (l : Log) (m : gmap string any) (w : World) :
  Data l = Some m ->
  WithFSys fsys l w
  = (Ok {| Message := Message l;
           Data := Some (<[DataKeyFSys := AFiles (WalkDir collect fsys "." []).2]>
                           m) |}, w).
Proof.
  intros Hm. unfold WithFSys.
  destruct (WalkDir collect fsys "." []) as [[err|] files]; unfold bind.
  - rewrite (set_Data_run _ m) by done.
    erewrite set_Data_run by done. simpl. by rewrite insert_insert_eq.
  - unfold ret. by rewrite (set_Data_run _ m) by done.
Qed.

Lemma WithFSys_sets_key fsys :
  sets_key (WithFSys fsys) DataKeyFSys
    (fun _ => AFiles (WalkDir collect fsys "." []).2).
Proof.
  intros l w [m Hm]. rewrite (WithFSys_run _ _ m) by done.
  eexists _, _. split; [done|]. apply map_index_assign.
Qed.

End FacadeOptions.

Section LevelAwareOptions.
Context `{Env}.
Import LevelAware.

Lemma apply_options_app' (pre post : list LogOption) (l : Log) (w : World) :
  apply_options (pre ++ post) l w
  = match apply_options pre l w with
    | (Ok l', w') => apply_options post l' w'
    | (Panic v, w') => (Panic v, w')
    end.
Proof.
  revert l w. induction pre as [|o pre IH]; intros l w; [done|].
  simpl. unfold bind. destruct (o l w) as [[l'|v] w']; [apply IH | done].
Qed.

Lemma set_Data_run' (l : Log) (m : gmap string any) (key : string)
    (value : any) (w : World) :
  Data l = Some m ->
  set_Data l key value w
  = (Ok {| CreatedAt := CreatedAt l; Level_ := Level_ l; Message := Message l;
           Data := Some (<[key := value]> m) |}, w).
Proof. intros Hm. unfold set_Data. rewrite Hm. done. Qed.

Lemma WithData_sets_key' key value :
  sets_key (WithData key value) key (fun _ => value).
Proof.
  intros l w [m Hm]. unfold WithData. rewrite (set_Data_run' _ m) by done.
  eexists _, _. split; [done|]. apply map_index_assign.
Qed.

Lemma WithFS_run (key : string) (fsys : FS) (l : Log) (m : gmap string any)
    (w : World) :
  Data l = Some m ->
  WithFS key fsys l w
  = (Ok {| CreatedAt := CreatedAt l; Level_ := Level_ l; Message := Message l;
           Data := Some (<[key := AFiles (WalkDir collect fsys "." []).2]> m) |},
     w).
Proof.
  intros Hm. unfold WithFS.
  destruct (WalkDir collect fsys "." []) as [[err|] files]; unfold bind.
  - rewrite (set_Data_run' _ m) by done.
    erewrite set_Data_run' by done. simpl. by rewrite insert_insert_eq.
  - unfold ret. by rewrite (set_Data_run' _ m) by done.
Qed.

Lemma WithFS_sets_key key fsys :
  sets_key (WithFS key fsys) key
    (fun _ => AFiles (WalkDir collect fsys "." []).2).
Proof.
  intros l w [m Hm]. rewrite (WithFS_run _ _ _ m) by done.
  eexists _, _. split; [done|]. apply map_index_assign.
Qed.

Lemma WithData_data_only key value : data_only (WithData key value).
Proof.
  intros l w [m Hm]. unfold WithData. rewrite (set_Data_run' _ m) by done.
  eexists _, _. split; [done|]. simpl. eauto.
Qed.

Lemma WithFS_data_only key fsys : data_only (WithFS key fsys).
Proof.
  intros l w [m Hm]. rewrite (WithFS_run _ _ _ m) by done.
  eexists _, _. split; [done|]. simpl. eauto.
Qed.

Lemma WithSourceCodeLocation_data_only key offset :
  data_only (WithSourceCodeLocation key offset).
Proof.
  intros l w [m Hm]. unfold WithSourceCodeLocation.
  destruct (runtime_Caller _ w) as [[[fname file] line]|].
  - rewrite (set_Data_run' _ m) by done.
    eexists _, _. split; [done|]. simpl. eauto.
  - unfold ret. eexists _, _. split; [done|]. eauto.
Qed.

Lemma apply_options_data_only (opts : list LogOption) :
  Forall data_only opts ->
  forall l w, is_Some (Data l) ->
    exists l' w', apply_options opts l w = (Ok l', w')
      /\ CreatedAt l' = CreatedAt l /\ Level_ l' = Level_ l
      /\ Message l' = Message l /\ is_Some (Data l').
Proof.
  induction 1 as [|o opts Ho _ IH]; intros l w Hl.
  - eexists _, _. split; [done|]. eauto.
  - destruct (Ho l w Hl) as (l1 & w1 & Hrun & Hc & Hlv & Hm & Hd).
    destruct (IH l1 w1 Hd) as (l2 & w2 & Hrun2 & Hc2 & Hlv2 & Hm2 & Hd2).
    exists l2, w2. simpl. unfold bind. rewrite Hrun.
    split; [done|]. repeat split; congruence || done.
Qed.

Lemma LevelLabels_index_in (lvl : Level) (w : World) :
  0 <= lvl <= 5 -> LevelLabels_index lvl w = (Ok (label_of lvl), w).
Proof.
  intros Hl. unfold LevelLabels_index.
  destruct (decide _) as [_|Hn]; [|simpl in Hn; lia].
  assert (Hc : lvl = 0 \/ lvl = 1 \/ lvl = 2 \/ lvl = 3 \/ lvl = 4 \/ lvl = 5)
    by lia.
  destruct Hc as [->|[->|[->|[->|[->| ->]]]]]; done.
Qed.

Lemma LevelLabels_index_out (lvl : Level) (w : World) :
  ~ 0 <= lvl <= 5 ->
  LevelLabels_index lvl w = (Panic (PanicRuntime "index out of range"), w).
Proof.
  intros Hl. unfold LevelLabels_index.
  destruct (decide _) as [Hn|_]; [simpl in Hn; lia | done].
Qed.

Lemma LogLevel_String_in (lvl : Facade.LogLevel) (w : World) :
  0 <= lvl <= 5 -> Facade.LogLevel_String lvl w = (Ok (label_of lvl), w).
Proof.
  intros Hl. unfold Facade.LogLevel_String.
  destruct (decide _) as [_|Hn]; [|simpl in Hn; lia].
  assert (Hc : lvl = 0 \/ lvl = 1 \/ lvl = 2 \/ lvl = 3 \/ lvl = 4 \/ lvl = 5)
    by lia.
  destruct Hc as [->|[->|[->|[->|[->| ->]]]]]; done.
Qed.

Lemma LogLevel_String_out (lvl : Facade.LogLevel) (w : World) :
  ~ 0 <= lvl <= 5 ->
  Facade.LogLevel_String lvl w = (Panic (PanicRuntime "index out of range"), w).
Proof.
  intros Hl. unfold Facade.LogLevel_String.
  destruct (decide _) as [Hn|_]; [simpl in Hn; lia | done].
Qed.

(** C9.  For a level of the declared range, [LevelUnknown] to [LevelPanic],
    [New] with options that only write to the data map (as those of the
    library do) returns a record whose [Level] is the canonical label of the
    level, the entry of [LevelLabels] at that index, and [LogLevel.String]
    returns the same label; for any other value of the level the index
    expression is out of bounds: [New] panics, and so does
    [LogLevel.String]. *)
Theorem New_level_label (lvl : Level) (msg : string) (opts : list LogOption)
    (w : World) :
  (0 <= lvl <= 5 -> Forall data_only opts ->
     exists l w', New lvl msg opts w = (Ok l, w')
       /\ Level_ l = label_of lvl
       /\ LevelLabels !! Z.to_nat lvl = Some (Level_ l))
  /\ (0 <= lvl <= 5 ->
        Facade.LogLevel_String lvl w = (Ok (label_of lvl), w))
  /\ (~ 0 <= lvl <= 5 ->
        (exists w', New lvl msg opts w
                    = (Panic (PanicRuntime "index out of range"), w'))
        /\ Facade.LogLevel_String lvl w
           = (Panic (PanicRuntime "index out of range"), w)).
Proof.
  split; [|split].
  - intros Hl Hopts. unfold New, bind, time_Now.
    rewrite LevelLabels_index_in by done.
    edestruct (apply_options_data_only opts Hopts) as (l & w' & -> & _ & Hlv & _);
      [by eexists|].
    exists l, w'. split; [done|]. simpl in Hlv. rewrite Hlv. split; [done|].
    assert (Hc : lvl = 0 \/ lvl = 1 \/ lvl = 2 \/ lvl = 3 \/ lvl = 4 \/ lvl = 5)
      by lia.
    destruct Hc as [->|[->|[->|[->|[->| ->]]]]]; done.
  - apply LogLevel_String_in.
  - intros Hl. split; [|by apply LogLevel_String_out].
    unfold New, bind, time_Now.
    rewrite LevelLabels_index_out by done. by eexists.
Qed.

End LevelAwareOptions.

(** ** Overwriting a key *)

Section Overwriting.
Context `{Env}.

Lemma map_index_is_Some (d : data) (k : string) (v : any) :
  map_index d k = Some v -> is_Some d.
Proof. destruct d; [by eexists | done]. Qed.

Lemma Facade_writes_run (o : Facade.LogOption) (k : string) (w : World)
    (v : any) (l : Facade.Log) :
  Facade.writes o k w v -> is_Some (Facade.Data l) ->
  exists l' w',
    o l w = (Ok l', w') /\ map_index (Facade.Data l') k = Some v.
Proof.
  intros Hw [m Hm]. destruct Hw as [key value w|w|lvl w|w fname file line Hc
                                    |w fname file line Hc|fsys w].
  - apply WithData_sets_key. by eexists.
  - apply WithTimestamp_sets_key. by eexists.
  - apply WithLevel_sets_key. by eexists.
  - unfold Facade.WithSrc. rewrite Hc. unfold bind.
    rewrite (set_Data_run _ m) by done. erewrite set_Data_run by done.
    eexists _, _. split; [done|]. simpl.
    rewrite lookup_insert_ne by done. apply lookup_insert_eq.
  - unfold Facade.WithSrc. rewrite Hc. unfold bind.
    rewrite (set_Data_run _ m) by done. erewrite set_Data_run by done.
    eexists _, _. split; [done|]. apply lookup_insert_eq.
  - apply WithFSys_sets_key. by eexists.
Qed.

Lemma LevelAware_writes_run (o : LevelAware.LogOption) (k : string)
    (w : World) (v : any) (l : LevelAware.Log) :
  LevelAware.writes o k w v -> is_Some (LevelAware.Data l) ->
  exists l' w',
    o l w = (Ok l', w') /\ map_index (LevelAware.Data l') k = Some v.
Proof.
  intros Hw [m Hm]. destruct Hw as [key value w|key offset w fname file line Hc
                                    |key fsys w].
  - apply WithData_sets_key'. by eexists.
  - unfold LevelAware.WithSourceCodeLocation. rewrite Hc.
    rewrite (set_Data_run' _ m) by done.
    eexists _, _. split; [done|]. apply lookup_insert_eq.
  - apply WithFS_sets_key. by eexists.
Qed.

(** C6.  Last write wins, in both generations, for the options of the
    library.  In the construction of a record (after any options [pre] that
    leave the record with a data map), when an option [o1] of the library
    that assigns [v1] to the key [k] is followed by an option [o2] of the
    library that assigns [v2] to the same key, [v1] stands under [k] after
    [o1] and the record returned holds [v2] under [k]: the value written by
    the later option.  The options are [WithData], [WithTimestamp],
    [WithLevel], [WithSrc] (when the frame is found) and [WithFSys] for
    [NewLog]; [WithData], [WithSourceCodeLocation] (when the frame is found)
    and [WithFS] for [New]. *)
Theorem later_assignment_stands (msg : string) (k : string) (w : World) :
  (forall (pre : list Facade.LogOption) (o1 o2 : Facade.LogOption)
          (v1 : any) (l0 : Facade.Log) (w0 : World),
      Facade.NewLog msg pre w = (Ok l0, w0) -> is_Some (Facade.Data l0) ->
      Facade.writes o1 k w0 v1 ->
      exists l1 w1,
        o1 l0 w0 = (Ok l1, w1)
        /\ map_index (Facade.Data l1) k = Some v1
        /\ forall v2, Facade.writes o2 k w1 v2 ->
             exists l2 w2,
               Facade.NewLog msg (pre ++ [o1; o2]) w = (Ok l2, w2)
               /\ map_index (Facade.Data l2) k = Some v2)
  /\ (forall (lvl : LevelAware.Level) (pre : list LevelAware.LogOption)
             (o1 o2 : LevelAware.LogOption) (v1 : any)
             (l0 : LevelAware.Log) (w0 : World),
      LevelAware.New lvl msg pre w = (Ok l0, w0) ->
      is_Some (LevelAware.Data l0) ->
      LevelAware.writes o1 k w0 v1 ->
      exists l1 w1,
        o1 l0 w0 = (Ok l1, w1)
        /\ map_index (LevelAware.Data l1) k = Some v1
        /\ forall v2, LevelAware.writes o2 k w1 v2 ->
             exists l2 w2,
               LevelAware.New lvl msg (pre ++ [o1; o2]) w = (Ok l2, w2)
               /\ map_index (LevelAware.Data l2) k = Some v2).
Proof.
  split.
  - intros pre o1 o2 v1 l0 w0 Hpre Hl0 H1.
    destruct (Facade_writes_run _ _ _ _ l0 H1 Hl0) as (l1 & w1 & Hr1 & Hk1).
    exists l1, w1. split; [done|]. split; [done|]. intros v2 H2.
    destruct (Facade_writes_run _ _ _ _ l1 H2 (map_index_is_Some _ _ _ Hk1))
      as (l2 & w2 & Hr2 & Hk2).
    exists l2, w2. split; [|done].
    unfold Facade.NewLog in *. rewrite apply_options_app, Hpre.
    simpl. unfold bind. by rewrite Hr1, Hr2.
  - intros lvl pre o1 o2 v1 l0 w0 Hpre Hl0 H1.
    destruct (LevelAware_writes_run _ _ _ _ l0 H1 Hl0) as (l1 & w1 & Hr1 & Hk1).
    exists l1, w1. split; [done|]. split; [done|]. intros v2 H2.
    destruct (LevelAware_writes_run _ _ _ _ l1 H2 (map_index_is_Some _ _ _ Hk1))
      as (l2 & w2 & Hr2 & Hk2).
    exists l2, w2. split; [|done].
    unfold LevelAware.New, bind in *.
    destruct (time_Now w) as [[now|v] wn]; [|done].
    destruct (LevelAware.LevelLabels_index lvl wn) as [[label|v] wl]; [|done].
    rewrite apply_options_app', Hpre.
    simpl. unfold bind. by rewrite Hr1, Hr2.
Qed.

End Overwriting.

(** ** The file-system snapshot *)

(** C3.  The code at a file system whose enumeration fails: the walk over
    [Demo.broken_fs] returns the error of [b.txt] after it has collected
    [a.txt], and after [WithFS] (and [WithFSys]) the key holds the list
    collected so far, not the message of the error: the assignment of the
    message is overwritten by the assignment of the list that follows it. *)
Theorem WithFS_error_keeps_listing :
  WalkDir collect Demo.broken_fs "." []
  = (Some (errorString "stat b.txt: permission denied"),
     [{| Path := "a.txt"; Size := 3 |}])
  /\ (exists l,
        LevelAware.WithFS "fs" Demo.broken_fs
          {| LevelAware.CreatedAt := 0; LevelAware.Level_ := "ERROR";
             LevelAware.Message := "hey"; LevelAware.Data := Some ∅ |} []
        = (Ok l, [])
        /\ map_index (LevelAware.Data l) "fs"
           = Some (AFiles [{| Path := "a.txt"; Size := 3 |}]))
  /\ (exists l,
        Facade.WithFSys Demo.broken_fs Demo.hey [] = (Ok l, [])
        /\ map_index (Facade.Data l) Facade.DataKeyFSys
           = Some (AFiles [{| Path := "a.txt"; Size := 3 |}])).
Proof.
  split; [reflexivity|]. split.
  - rewrite (WithFS_run _ _ _ ∅) by done. eexists. split; [done|].
    simpl. by rewrite lookup_insert_eq.
  - rewrite (WithFSys_run _ _ ∅) by done. eexists. split; [done|].
    simpl. by rewrite lookup_insert_eq.
Qed.

(** ** The serializers do not depend on the order of the map *)

Section SortedEntries.
Import Facade.

#[local] Instance by_key_total : Total by_key.
Proof. intros x y. apply (total String.le). Qed.

#[local] Instance by_key_trans : Transitive by_key.
Proof. intros x y z. unfold by_key. apply transitivity. Qed.




End SortedEntries.


(** ** Serializers *)

Section Serializing.
Context `{Env}.
Import Facade.
Variable json_MarshalIndent : Log -> error + bytes.

Lemma bytes_Join_three (x y z : bytes) : bytes_Join [x; y; z] [] = x ++ y ++ z.
Proof. done. Qed.

Lemma writerWrapper_Write_run (ww : writerWrapper) (b : bytes) (w : World) :
  exists n err,
    writerWrapper_Write ww b w
    = (Ok (n, err), w ++ attempts ww b (responses ww b w)).
Proof.
  unfold writerWrapper_Write, bind.
  rewrite Write_range_spec by (unfold in_int, int_min, int_max; lia).
  simpl. destruct (omap snd _); by eexists _, _.
Qed.

(** One call of the logger function, step by step: a panic of a base option
    or of the serializer ends the call before anything is written. *)
Lemma LoggerFunc_run (dl : DefaultLogger) (l : Log) (w : World) :
  (LoggerFunc dl).1 l w
  = match apply_options (BaseOptions dl) l w with
    | (Panic v, w1) => (Panic v, w1)
    | (Ok l1, w1) =>
        match Serializer_ dl l1 w1 with
        | (Panic v, w2) => (Panic v, w2)
        | (Ok (l2, ser), w2) =>
            match writerWrapper_Write (Writers dl) (framed dl ser) w2 with
            | (Panic v, w3) => (Panic v, w3)
            | (Ok (_, err), w3) => (Ok (l2, err), w3)
            end
        end
    end.
Proof.
  unfold LoggerFunc. cbn [fst]. unfold bind.
  destruct (apply_options _ l w) as [[l1|v] w1]; [|done].
  destruct (Serializer_ dl l1 w1) as [[[l2 ser]|v] w2]; [|done].
  rewrite bytes_Join_three, bytes_of_string_app.
  change (bytes_of_string LF) with [x0a]%byte. fold (framed dl ser).
  unfold newWriterWrapper.
  by destruct (writerWrapper_Write _ _ w2) as [[[n err]|v] w3].
Qed.

(** C8.  When the base options and the serializer return, the function
    that [DefaultLogger.LoggerFunc] returns hands [writerWrapper.Write] the
    bytes of the prefix, then the bytes [ser] that the serializer yields for
    the record as the base options left it, then the bytes of the suffix,
    then one line feed: every sink of the logger is written exactly these
    bytes, and the call returns what the aggregator returns. *)
Theorem LoggerFunc_frames (dl : DefaultLogger) (l l1 l2 : Log) (ser : bytes)
    (w w1 w2 : World) :
  apply_options (BaseOptions dl) l w = (Ok l1, w1) ->
  Serializer_ dl l1 w1 = (Ok (l2, ser), w2) ->
  let b := bytes_of_string (LogPrefix dl) ++ ser
           ++ bytes_of_string (LogSuffix dl) ++ [x0a]%byte in
  let written := attempts (Writers dl) b (responses (Writers dl) b w2) in
  exists n err,
    writerWrapper_Write (Writers dl) b w2 = (Ok (n, err), w2 ++ written)
    /\ (LoggerFunc dl).1 l w = (Ok (l2, err), w2 ++ written).
Proof.
  intros Hopts Hser b written.
  rewrite LoggerFunc_run, Hopts, Hser. fold b. unfold framed. fold b.
  destruct (writerWrapper_Write_run (Writers dl) b w2) as (n & err & Hw).
  exists n, err. by rewrite Hw.
Qed.

(** C5.  On a record that [json.MarshalIndent] cannot encode, [AsJSON]
    panics with the error of the marshalling.  For a logger whose serializer
    is [AsJSON], when the base options return and leave a record that cannot
    be encoded, the function returned by [DefaultLogger.LoggerFunc] panics
    with that error and no sink is written (the world is the one the base
    options left); with no base options, that is every call on a record that
    cannot be encoded.  The failure is a panic, not a returned error. *)
Theorem AsJSON_panics_on_unencodable :
  (forall (l : Log) (e : error) (w : World),
      json_MarshalIndent l = inl e ->
      AsJSON json_MarshalIndent l w = (Panic (PanicError e), w))
  /\ (forall (dl : DefaultLogger) (l l1 : Log) (e : error) (w w1 : World),
        Serializer_ dl = AsJSON json_MarshalIndent ->
        apply_options (BaseOptions dl) l w = (Ok l1, w1) ->
        json_MarshalIndent l1 = inl e ->
        (LoggerFunc dl).1 l w = (Panic (PanicError e), w1))
  /\ (forall (dl : DefaultLogger) (l : Log) (e : error) (w : World),
        Serializer_ dl = AsJSON json_MarshalIndent ->
        BaseOptions dl = [] ->
        json_MarshalIndent l = inl e ->
        (LoggerFunc dl).1 l w = (Panic (PanicError e), w)).
Proof.
  assert (Hp : forall l e w, json_MarshalIndent l = inl e ->
                 AsJSON json_MarshalIndent l w = (Panic (PanicError e), w))
    by (intros l e w Hj; unfold AsJSON; by rewrite Hj).
  split; [exact Hp|]. split.
  - intros dl l l1 e w w1 Hser Hopts Hj.
    by rewrite LoggerFunc_run, Hopts, Hser, (Hp _ e).
  - intros dl l e w Hser Hopts Hj.
    rewrite LoggerFunc_run, Hopts, Hser. simpl. by rewrite (Hp _ e).
Qed.

(** C10.  [DefaultLogger.LoggerFunc] returns a nil error, whatever the
    writers, the serializer, the base options, the prefix and the suffix. *)
Theorem LoggerFunc_returns_nil_error (dl : DefaultLogger) :
  (LoggerFunc dl).2 = None.
Proof. done. Qed.

End Serializing.

(** ** The retry loop of [JSONLogger] *)

Section Retrying.
Context `{Env}.
Import LevelAware.
Variable json_MarshalIndent : Log -> error + bytes.

Lemma NewJSONLogger_tries (dirname : string) (w w' : World) (jfl : JSONLogger) :
  NewJSONLogger dirname w = (Ok (inr jfl), w') -> tries jfl = 5.
Proof.
  unfold NewJSONLogger, bind, os_Mkdir, time_Now, os_Create, ret.
  destruct (mkdir dirname w) as [e|]; [destruct (is_ErrExist e)|];
    try discriminate;
    destruct (create _ _); try discriminate; by intros [= <- _].
Qed.

Lemma Log_for_unencodable (rounds : nat) (jfl : JSONLogger) (l : Log)
    (e : error) (w : World) :
  json_MarshalIndent l = inl e ->
  Log_for json_MarshalIndent rounds jfl l w = (Ok tt, w).
Proof.
  intros Hj. induction rounds as [|rounds IH]; simpl; [done|]. by rewrite Hj.
Qed.

Lemma Log_for_retried (jfl : JSONLogger) (l : Log) (b : bytes) (w0 : World) :
  json_MarshalIndent l = inr b ->
  forall (rounds k0 : nat) (w : World),
    retried (out jfl) (b ++ [x2c; x0a]%byte) w0 k0 false w ->
    exists (k : nat) (ok : bool) (w' : World),
      Log_for json_MarshalIndent rounds jfl l w = (Ok tt, w')
      /\ retried (out jfl) (b ++ [x2c; x0a]%byte) w0 (k0 + k) ok w'
      /\ (k <= rounds)%nat
      /\ (ok = false -> k = rounds).
Proof.
  intros Hj. induction rounds as [|rounds IH]; intros k0 w Hk0.
  - exists 0%nat, false, w. rewrite Nat.add_0_r. done.
  - simpl. rewrite Hj. unfold bind, Writer_Write.
    destruct (sink_Write (out jfl) w (b ++ [x2c; x0a]%byte)) as [n [err|]] eqn:Hw.
    + destruct (IH (S k0) _ (retried_fail _ _ _ _ _ _ _ Hk0 Hw))
        as (k & ok & w' & Hrun & Hret & Hle & Hall).
      exists (S k), ok, w'. rewrite Hrun.
      replace (k0 + S k)%nat with (S k0 + k)%nat by lia.
      repeat split; [done | lia | intros; f_equal; auto].
    + exists 1%nat, true, (w ++ [EvWrite (out jfl) (b ++ [x2c; x0a]%byte) n None]).
      replace (k0 + 1)%nat with (S k0) by lia.
      repeat split; [by eapply retried_ok | lia | done].
Qed.

(** C4.  A logger made by [NewJSONLogger] runs the sequence of serializing
    and writing at most 5 times, again after every round that failed, and
    [JSONLogger.Log] returns nil in every case.  [k] is the number of rounds
    run and [ok] says whether the last one succeeded: when none does, all 5
    were run.  When the record cannot be serialized every round fails
    without a write; else the rounds are [k] writes of the serialized record
    followed by a comma and a line feed, all failed but a last successful
    one. *)
Theorem JSONLogger_Log_retries_and_returns_nil (dirname : string)
    (w0 w1 : World) (jfl : JSONLogger) (l : Log) (w : World) :
  NewJSONLogger dirname w0 = (Ok (inr jfl), w1) ->
  exists (k : nat) (ok : bool) (w' : World),
    JSONLogger_Log json_MarshalIndent jfl l w = (Ok None, w')
    /\ (k <= 5)%nat
    /\ (ok = false -> k = 5%nat)
    /\ match json_MarshalIndent l with
       | inl _ => ok = false /\ w' = w
       | inr b => retried (out jfl) (b ++ [x2c; x0a]%byte) w k ok w'
       end.
Proof.
  intros Hnew. apply NewJSONLogger_tries in Hnew.
  unfold JSONLogger_Log, bind. rewrite Hnew.
  change (Z.to_nat 5) with 5%nat.
  destruct (json_MarshalIndent l) as [e|b] eqn:Hj.
  - rewrite (Log_for_unencodable _ _ _ e) by done.
    exists 5%nat, false, w. done.
  - destruct (Log_for_retried jfl l b w Hj 5 0 w (retried_none _ _ _))
      as (k & ok & w' & Hrun & Hret & Hle & Hall).
    exists k, ok, w'. rewrite Hrun. done.
Qed.

End Retrying.

(** * The statements at concrete inputs *)

Section Witnesses.
Import Demo.

Lemma aggregated_error_message_witness :
  exists (n : int) (err : error) (w' : World),
    Facade.writerWrapper_Write [1%nat; 0%nat; 2%nat] [x68; x69]%byte [] = (Ok (n, Some err), w')
    /\ err = errWrapper [errorString "stub: write failed"; errorString "short write"]
    /\ Error err = "stub: write failed, short write".
Proof.
  refine (aggregated_error_message [1%nat; 0%nat; 2%nat] [x68; x69]%byte [] _).
  vm_compute. left. done.
Defined.

Lemma JSONLogger_Log_retries_witness :
  exists (k : nat) (ok : bool) (w' : World),
    LevelAware.JSONLogger_Log json_MarshalIndent' full_disk disk_error []
    = (Ok None, w')
    /\ (k <= 5)%nat
    /\ (ok = false -> k = 5%nat)
    /\ match json_MarshalIndent' disk_error with
       | inl _ => ok = false /\ w' = []
       | inr b =>
           LevelAware.retried (LevelAware.out full_disk)
             (b ++ [x2c; x0a]%byte) [] k ok w'
       end.
Proof.
  eapply (JSONLogger_Log_retries_and_returns_nil json_MarshalIndent' "full" []).
  vm_compute. reflexivity.
Defined.

Lemma AsJSON_panics_on_unencodable_witness :
  Facade.AsJSON json_MarshalIndent with_chan []
  = (Panic (PanicError (errorString "json: unsupported type: chan int")), [])
  /\ (Facade.LoggerFunc two_sinks).1 with_chan []
     = (Panic (PanicError (errorString "json: unsupported type: chan int")), [])
  /\ (Facade.LoggerFunc plain_json).1 with_chan []
     = (Panic (PanicError (errorString "json: unsupported type: chan int")), []).
Proof.
  pose proof (AsJSON_panics_on_unencodable json_MarshalIndent)
    as (Hser & Hopts & Hplain).
  split; [|split].
  - apply Hser. vm_compute. reflexivity.
  - apply (Hopts two_sinks with_chan with_chan_info).
    + reflexivity.
    + vm_compute. reflexivity.
    + vm_compute. reflexivity.
  - apply (Hplain plain_json with_chan); [reflexivity | reflexivity |].
    vm_compute. reflexivity.
Defined.
(** A base option that overwrites the value that cannot be encoded makes
    the call succeed: what counts is the record as the base options leave
    it. *)
Example overwritten_value_is_logged :
  exists l' w',
    (Facade.LoggerFunc overwriting).1 with_chan [] = (Ok (l', None), w')
    /\ map_index (Facade.Data l') "c" = Some (AString "ok").
Proof. eexists _, _. split; vm_compute; reflexivity. Qed.

Lemma unencodable_record_panics :
  json_MarshalIndent with_chan
  = inl (errorString "json: unsupported type: chan int")
  /\ Facade.AsJSON json_MarshalIndent with_chan []
     = (Panic (PanicError (errorString "json: unsupported type: chan int")), [])
  /\ (Facade.LoggerFunc two_sinks).1 with_chan []
     = (Panic (PanicError (errorString "json: unsupported type: chan int")), [])
  /\ ~ (exists l' err w',
          (Facade.LoggerFunc two_sinks).1 with_chan [] = (Ok (l', err), w')).
Proof.
  assert (Hrun : (Facade.LoggerFunc two_sinks).1 with_chan []
     = (Panic (PanicError (errorString "json: unsupported type: chan int")), []))
    by (vm_compute; reflexivity).
  split; [vm_compute; reflexivity|]. split; [vm_compute; reflexivity|].
  split; [exact Hrun|]. intros (l' & err & w' & Hok).
  rewrite Hrun in Hok. discriminate.
Qed.

Lemma later_assignment_stands_witness :
  (exists l2 w2,
      Facade.NewLog "hey"
        ([] ++ [Facade.WithData Facade.DataKeyLevel (AString "DEBUG");
                Facade.WithLevel "INFO"]) []
      = (Ok l2, w2)
      /\ map_index (Facade.Data l2) Facade.DataKeyLevel
         = Some (AString "INFO"))
  /\ (exists l2 w2,
        LevelAware.New LevelAware.LevelInfo "hey"
          ([] ++ [LevelAware.WithData "fs" (AString "none");
                  LevelAware.WithFS "fs" broken_fs]) []
        = (Ok l2, w2)
        /\ map_index (LevelAware.Data l2) "fs"
           = Some (AFiles (WalkDir collect broken_fs "." []).2)).
Proof.
  split.
  - destruct (proj1 (later_assignment_stands "hey" Facade.DataKeyLevel [])
                [] (Facade.WithData Facade.DataKeyLevel (AString "DEBUG"))
                (Facade.WithLevel "INFO") (AString "DEBUG") hey []
                eq_refl (ex_intro _ ∅ eq_refl)
                (Facade.writes_WithData _ _ _))
      as (l1 & w1 & _ & _ & Hnext).
    apply Hnext. apply Facade.writes_WithLevel.
  - edestruct (proj2 (later_assignment_stands "hey" "fs" [])
                 LevelAware.LevelInfo []
                 (LevelAware.WithData "fs" (AString "none"))
                 (LevelAware.WithFS "fs" broken_fs) (AString "none") _ _
                 eq_refl (ex_intro _ ∅ eq_refl)
                 (LevelAware.writes_WithData _ _ _))
      as (l1 & w1 & _ & _ & Hnext).
    apply Hnext. apply LevelAware.writes_WithFS.
Defined.




Lemma LoggerFunc_frames_witness :
  let ser := match json_MarshalIndent hey_info with
             | inr b => b
             | inl _ => []
             end in
  let b := bytes_of_string "app " ++ ser ++ bytes_of_string "," ++ [x0a]%byte in
  let written := [EvWrite 0%nat b 62 None;
                  EvWrite 1%nat b 0 (Some (errorString "stub: write failed"))] in
  exists n err,
    Facade.writerWrapper_Write [0%nat; 1%nat] b [] = (Ok (n, err), written)
    /\ (Facade.LoggerFunc two_sinks).1 hey [] = (Ok (hey_info, err), written).
Proof.
  intros ser b written.
  refine (LoggerFunc_frames two_sinks hey hey_info hey_info ser [] [] [] _ _).
  - vm_compute. reflexivity.
  - vm_compute. reflexivity.
Defined.

Lemma New_level_label_witness :
  (exists l w',
      LevelAware.New LevelAware.LevelInfo "hey"
        [LevelAware.WithData "k" (AString "v")] [] = (Ok l, w')
      /\ LevelAware.Level_ l = "INFO"
      /\ LevelAware.LevelLabels !! 2%nat = Some (LevelAware.Level_ l))
  /\ Facade.LogLevel_String Facade.LevelInfo [] = (Ok "INFO", [])
  /\ (exists w',
        LevelAware.New 6 "hey" [] []
        = (Panic (PanicRuntime "index out of range"), w'))
  /\ Facade.LogLevel_String 6 []
     = (Panic (PanicRuntime "index out of range"), []).
Proof.
  split; [|split].
  - refine (proj1 (New_level_label LevelAware.LevelInfo "hey"
                     [LevelAware.WithData "k" (AString "v")] []) _ _).
    + unfold LevelAware.LevelInfo. lia.
    + repeat constructor. apply WithData_data_only.
  - refine (proj1 (proj2 (New_level_label 2 "hey" [] [])) _). lia.
  - refine (proj2 (proj2 (New_level_label 6 "hey" [] [])) _). lia.
Defined.

End Witnesses.

(** * Further properties *)

(** ** More on [errWrapper] and on [writerWrapper.Write] *)

Lemma concat_app_sep (sep : string) (l1 l2 : list string) :
  l1 <> [] -> l2 <> [] ->
  String.concat sep (l1 ++ l2)
  = String.concat sep l1 +:+ sep +:+ String.concat sep l2.
Proof.
  intros H1 H2. induction l1 as [|x l1 IH]; [done|].
  destruct l1 as [|y l1].
  - destruct l2 as [|z l2]; [done|]. reflexivity.
  - change (String.concat sep ((x :: y :: l1) ++ l2))
      with (x +:+ sep +:+ String.concat sep ((y :: l1) ++ l2)).
    rewrite IH by done.
    change (String.concat sep (x :: y :: l1))
      with (x +:+ sep +:+ String.concat sep (y :: l1)).
    by rewrite !string_app_assoc.
Qed.

(** X1.  The message of an [errWrapper] of two non-empty lists of errors, one
    after the other, is the message of the first, a comma and a space, and
    the message of the second. *)
Theorem errWrapper_Error_app (ew1 ew2 : list error) :
  ew1 <> [] -> ew2 <> [] ->
  Error (errWrapper (ew1 ++ ew2))
  = Error (errWrapper ew1) +:+ ", " +:+ Error (errWrapper ew2).
Proof.
  intros H1 H2.
  change (errWrapper_Error (ew1 ++ ew2)
          = errWrapper_Error ew1 +:+ ", " +:+ errWrapper_Error ew2).
  rewrite !errWrapper_Error_concat, fmap_app.
  apply concat_app_sep; by destruct ew1, ew2.
Qed.

Section Aggregator.
Context `{Env}.
Import Facade.

Lemma responses_full (ww : writerWrapper) (b : bytes) :
  (forall s w, s ∈ ww -> sink_Write s w b = (Z.of_nat (length b), None)) ->
  forall w, responses ww b w = replicate (length ww) (Z.of_nat (length b), None).
Proof.
  induction ww as [|s ww IH]; intros Hall w; [done|].
  simpl. rewrite Hall by left. f_equal. apply IH.
  intros s' w' Hs'. apply Hall. by right.
Qed.

Lemma omap_snd_replicate_None (n : nat) (z : Z) :
  omap snd (replicate n (z, @None error)) = [].
Proof. induction n as [|n IH]; [done | exact IH]. Qed.

Lemma Zsum_replicate (n : nat) (z : Z) :
  Zsum (replicate n z) = Z.of_nat n * z.
Proof. induction n as [|n IH]; simpl; [lia|]. rewrite IH. lia. Qed.

(** X2.  When every sink of the wrapper takes all of [b] without error,
    [writerWrapper.Write] returns no error and the count [len(ww) * len(b)],
    provided it fits an [int]: the counts of the sinks add up. *)
Theorem writerWrapper_Write_full_count (ww : writerWrapper) (b : bytes)
    (w : World) :
  (forall s w', s ∈ ww -> sink_Write s w' b = (Z.of_nat (length b), None)) ->
  in_int (Z.of_nat (length ww) * Z.of_nat (length b)) ->
  exists w',
    writerWrapper_Write ww b w
    = (Ok (Z.of_nat (length ww) * Z.of_nat (length b), None), w').
Proof.
  intros Hall Hfit. unfold writerWrapper_Write, bind.
  rewrite Write_range_spec by (unfold in_int, int_min, int_max; lia).
  rewrite (responses_full ww b Hall), fmap_replicate,
    omap_snd_replicate_None, Zsum_replicate.
  cbn [fst app]. rewrite Z.add_0_l, int_wrap_id by done. by eexists.
Qed.

End Aggregator.


(** ** More on the options of the data-key generation *)

Section FacadeOptionsMore.
Context `{Env}.
Import Facade.

Lemma set_Data_touches (l : Log) (key : string) (value : any) (w : World) :
  is_Some (Data l) ->
  exists l', set_Data l key value w = (Ok l', w)
    /\ Message l' = Message l /\ is_Some (Data l')
    /\ map_index (Data l') key = Some value
    /\ forall k, k <> key -> map_index (Data l') k = map_index (Data l) k.
Proof.
  intros [m Hm]. rewrite (set_Data_run _ m) by done. eexists.
  split; [done|]. simpl. split; [done|]. split; [by eexists|].
  split; [apply lookup_insert_eq|].
  intros k Hk. rewrite Hm. simpl. by apply lookup_insert_ne.
Qed.

Lemma WithData_touches_only key value : touches_only (WithData key value) [key].
Proof.
  intros l w Hl.
  destruct (set_Data_touches l key value w Hl) as (l' & Hr & Hm & Hd & _ & Ho).
  exists l', w. repeat split; try done. intros k Hk. apply Ho. set_solver.
Qed.

Lemma WithLevel_touches_only lvl : touches_only (WithLevel lvl) [DataKeyLevel].
Proof.
  intros l w Hl.
  destruct (set_Data_touches l DataKeyLevel (AString lvl) w Hl)
    as (l' & Hr & Hm & Hd & _ & Ho).
  exists l', w. repeat split; try done. intros k Hk. apply Ho. set_solver.
Qed.

Lemma WithTimestamp_touches_only : touches_only WithTimestamp [DataKeyTimestamp].
Proof.
  intros l w Hl. unfold WithTimestamp, bind, time_Now.
  edestruct (set_Data_touches l DataKeyTimestamp) as (l' & Hr & Hm & Hd & _ & Ho);
    [done|].
  exists l', (w ++ [EvNow (clock w)]). rewrite Hr.
  repeat split; try done. intros k Hk. apply Ho. set_solver.
Qed.

Lemma WithSrc_touches_only :
  touches_only WithSrc [DataKeySrcFunction; DataKeySrcFileLine].
Proof.
  intros l w Hl. unfold WithSrc.
  destruct (runtime_Caller 2 w) as [[[fname file] line]|].
  - unfold bind.
    edestruct (set_Data_touches l DataKeySrcFunction)
      as (l1 & Hr1 & Hm1 & Hd1 & _ & Ho1); [done|]. rewrite Hr1.
    edestruct (set_Data_touches l1 DataKeySrcFileLine)
      as (l2 & Hr2 & Hm2 & Hd2 & _ & Ho2); [done|]. rewrite Hr2.
    exists l2, w. repeat split; try done; [congruence|].
    intros k Hk. rewrite Ho2, Ho1; [done| |]; set_solver.
  - exists l, w. done.
Qed.

Lemma WithFSys_touches_only fsys : touches_only (WithFSys fsys) [DataKeyFSys].
Proof.
  intros l w [m Hm]. rewrite (WithFSys_run _ _ m) by done.
  eexists _, _. split; [done|]. simpl. repeat split; [by eexists|].
  intros k Hk. rewrite Hm. simpl. apply lookup_insert_ne. set_solver.
Qed.

(** X4.  On a record with a data map, each option of the data-key generation
    returns, keeps the message and changes no key but its own. *)
Theorem builtin_options_touch_only :
  (forall key value, touches_only (WithData key value) [key])
  /\ (forall lvl, touches_only (WithLevel lvl) [DataKeyLevel])
  /\ touches_only WithTimestamp [DataKeyTimestamp]
  /\ touches_only WithSrc [DataKeySrcFunction; DataKeySrcFileLine]
  /\ (forall fsys, touches_only (WithFSys fsys) [DataKeyFSys]).
Proof.
  split; [apply WithData_touches_only|].
  split; [apply WithLevel_touches_only|].
  split; [apply WithTimestamp_touches_only|].
  split; [apply WithSrc_touches_only | apply WithFSys_touches_only].
Qed.

Lemma touches_only_weaken (o : LogOption) (ks ks' : list string) :
  ks ⊆ ks' -> touches_only o ks -> touches_only o ks'.
Proof.
  intros Hsub Ho l w Hl. destruct (Ho l w Hl) as (l' & w' & Hr & Hm & Hd & Hk).
  exists l', w'. repeat split; try done. intros k Hk'. apply Hk. set_solver.
Qed.

Lemma apply_options_touches (ks : list string) (opts : list LogOption) :
  Forall (fun o => touches_only o ks) opts ->
  forall l w, is_Some (Data l) ->
    exists l' w', apply_options opts l w = (Ok l', w')
      /\ Message l' = Message l /\ is_Some (Data l')
      /\ forall k, k ∉ ks -> map_index (Data l') k = map_index (Data l) k.
Proof.
  induction 1 as [|o opts Ho _ IH]; intros l w Hl.
  - by exists l, w.
  - destruct (Ho l w Hl) as (l1 & w1 & Hr1 & Hm1 & Hd1 & Hk1).
    destruct (IH l1 w1 Hd1) as (l2 & w2 & Hr2 & Hm2 & Hd2 & Hk2).
    exists l2, w2. simpl. unfold bind. rewrite Hr1.
    repeat split; try done; [congruence|].
    intros k Hk. rewrite Hk2, Hk1; done.
Qed.

(** X5.  [NewLog] with options that each return, keep the message and touch
    only keys of [ks] returns a record with the message given and a data map
    in which every key outside [ks] is absent. *)
Theorem NewLog_keeps_message (msg : string) (ks : list string)
    (opts : list LogOption) (w : World) :
  Forall (fun o => touches_only o ks) opts ->
  exists l w',
    NewLog msg opts w = (Ok l, w')
    /\ Message l = msg /\ is_Some (Data l)
    /\ forall k, k ∉ ks -> map_index (Data l) k = None.
Proof.
  intros Hopts. unfold NewLog.
  edestruct (apply_options_touches ks opts Hopts) as (l & w' & -> & Hm & Hd & Hk);
    [by eexists|].
  exists l, w'. repeat split; done.
Qed.

(** X6.  [NewLog] with a list of [WithData] options returns, in the same
    world, the record whose data map holds the pairs given, the last value
    standing for a key given more than once. *)
Theorem NewLog_WithData_list (msg : string) (kvs : list (string * any))
    (w : World) :
  NewLog msg ((fun kv => WithData kv.1 kv.2) <$> kvs) w
  = (Ok {| Message := msg; Data := Some (list_to_map (reverse kvs)) |}, w).
Proof.
  unfold NewLog.
  assert (Hgen : forall (m : gmap string any),
    apply_options ((fun kv => WithData kv.1 kv.2) <$> kvs)
      {| Message := msg; Data := Some m |} w
    = (Ok {| Message := msg;
             Data := Some (list_to_map (reverse kvs) ∪ m) |}, w)).
  { induction kvs as [|[k v] kvs IH]; intros m.
    - simpl. by rewrite (left_id_L ∅ (∪)).
    - simpl. unfold bind, WithData. rewrite (set_Data_run _ m) by done.
      simpl. rewrite IH. do 3 f_equal.
      rewrite reverse_cons, list_to_map_app. simpl.
      rewrite <- (assoc_L (∪)). f_equal.
      by rewrite insert_empty, <- insert_union_singleton_l. }
  rewrite Hgen. by rewrite (right_id_L ∅ (∪)).
Qed.

(** X7.  Two [WithData] options on different keys commute, on every record
    (on the nil map both orders panic alike). *)
Theorem WithData_commute (k1 k2 : string) (v1 v2 : any) (l : Log) (w : World) :
  k1 <> k2 ->
  apply_options [WithData k1 v1; WithData k2 v2] l w
  = apply_options [WithData k2 v2; WithData k1 v1] l w.
Proof.
  intros Hne. simpl. unfold bind, WithData.
  destruct (Data l) as [m|] eqn:Hm.
  - rewrite !(set_Data_run _ m) by done.
    erewrite !set_Data_run by done. simpl. by rewrite insert_insert_ne.
  - unfold set_Data, bind. rewrite Hm. done.
Qed.

End FacadeOptionsMore.


(** ** The source location *)

Section SourceLocation.
Context `{Env}.

(** X8.  [WithSrc] writes both of its keys or none.  When no frame is found
    the record comes back as it was, whatever its data map; when one is
    found, both keys are written on a record with a data map, and the call
    panics on the nil map. *)
Theorem WithSrc_both_or_neither (l : Facade.Log) (w : World) :
  (runtime_Caller 2 w = None -> Facade.WithSrc l w = (Ok l, w))
  /\ (forall fname file line m,
        runtime_Caller 2 w = Some (fname, file, line) ->
        Facade.Data l = Some m ->
        Facade.WithSrc l w
        = (Ok {| Facade.Message := Facade.Message l;
                 Facade.Data :=
                   Some (<[Facade.DataKeySrcFileLine :=
                             AString (file +:+ ":" +:+ strconv_Itoa line)]>
                           (<[Facade.DataKeySrcFunction := AString fname]> m))
              |}, w))
  /\ (forall fname file line,
        runtime_Caller 2 w = Some (fname, file, line) ->
        Facade.Data l = None ->
        Facade.WithSrc l w
        = (Panic (PanicRuntime "assignment to entry in nil map"), w)).
Proof.
  unfold Facade.WithSrc. repeat split.
  - by intros ->.
  - intros fname file line m -> Hm. unfold bind.
    rewrite (set_Data_run _ m) by done. by erewrite set_Data_run by done.
  - intros fname file line -> Hm. unfold bind, Facade.set_Data, bind.
    by rewrite Hm.
Qed.

(** X9.  [WithSourceCodeLocation key offset] looks at the frame [2 + offset].
    When no frame is found the record comes back as it was; otherwise [key]
    holds the function name, [at], the file, a colon and the line, and every
    other key and field is as before. *)
Theorem WithSourceCodeLocation_frame (key : string) (offset : int)
    (l : LevelAware.Log) (w : World) :
  (runtime_Caller (int_add 2 offset) w = None ->
     LevelAware.WithSourceCodeLocation key offset l w = (Ok l, w))
  /\ (forall fname file line m,
        runtime_Caller (int_add 2 offset) w = Some (fname, file, line) ->
        LevelAware.Data l = Some m ->
        exists l',
          LevelAware.WithSourceCodeLocation key offset l w = (Ok l', w)
          /\ map_index (LevelAware.Data l') key
             = Some (AString (fname +:+ " at " +:+ file +:+ ":"
                              +:+ strconv_Itoa line))
          /\ (forall k, k <> key ->
                map_index (LevelAware.Data l') k = m !! k)
          /\ LevelAware.Message l' = LevelAware.Message l
          /\ LevelAware.Level_ l' = LevelAware.Level_ l
          /\ LevelAware.CreatedAt l' = LevelAware.CreatedAt l).
Proof.
  unfold LevelAware.WithSourceCodeLocation. split.
  - by intros ->.
  - intros fname file line m -> Hm. rewrite (set_Data_run' _ m) by done.
    eexists. split; [done|]. simpl. split; [apply lookup_insert_eq|].
    split; [|done]. intros k Hk. by apply lookup_insert_ne.
Qed.

End SourceLocation.

(** ** More on the logger function *)

Section LoggerMore.
Context `{Env}.
Import Facade.

Lemma writerWrapper_Write_exact (ww : writerWrapper) (b : bytes) (w : World) :
  writerWrapper_Write ww b w
  = (Ok (int_wrap (Zsum (responses ww b w).*1),
         match omap snd (responses ww b w) with
         | [] => None
         | e :: es => Some (errWrapper (e :: es))
         end),
     w ++ attempts ww b (responses ww b w)).
Proof.
  unfold writerWrapper_Write, bind.
  rewrite Write_range_spec by (unfold in_int, int_min, int_max; lia).
  simpl. by destruct (omap snd _).
Qed.

Lemma omap_snd_nil (rs : list (int * option error)) :
  omap snd rs = [] <-> Forall (fun r => r.2 = None) rs.
Proof.
  induction rs as [|[n [e|]] rs IH]; simpl.
  - split; [by constructor | done].
  - split; [done | by inversion 1].
  - rewrite IH. split; [by constructor | by inversion 1].
Qed.

(** X10.  When the base options and the serializer return, the logger function
    returns no error exactly when every sink took the framed record without
    error, and otherwise an error whose message is the messages of the
    failing sinks, in the order of the sinks, joined with a comma and a
    space. *)
Theorem LoggerFunc_error (dl : DefaultLogger) (l l1 l2 : Log) (ser : bytes)
    (w w1 w2 : World) :
  apply_options (BaseOptions dl) l w = (Ok l1, w1) ->
  Serializer_ dl l1 w1 = (Ok (l2, ser), w2) ->
  let rs := responses (Writers dl) (framed dl ser) w2 in
  exists err w3,
    (LoggerFunc dl).1 l w = (Ok (l2, err), w3)
    /\ (err = None <-> Forall (fun r => r.2 = None) rs)
    /\ (forall e, err = Some e ->
          Error e = String.concat ", " (Error <$> omap snd rs)).
Proof.
  intros Hopts Hser rs.
  rewrite LoggerFunc_run, Hopts, Hser, writerWrapper_Write_exact. fold rs.
  eexists _, _. split; [done|]. rewrite <- omap_snd_nil.
  destruct (omap snd rs) as [|e es] eqn:He.
  - split; [done|]. by intros e.
  - split; [done|]. intros e' [= <-].
    exact (errWrapper_Error_concat (e :: es)).
Qed.

(** X11.  A logger with no writers applies the base options, serializes, writes
    nothing and returns no error. *)
Theorem LoggerFunc_no_writers (dl : DefaultLogger) (l l1 l2 : Log)
    (ser : bytes) (w w1 w2 : World) :
  Writers dl = [] ->
  apply_options (BaseOptions dl) l w = (Ok l1, w1) ->
  Serializer_ dl l1 w1 = (Ok (l2, ser), w2) ->
  (LoggerFunc dl).1 l w = (Ok (l2, None), w2).
Proof.
  intros Hw Hopts Hser.
  rewrite LoggerFunc_run, Hopts, Hser, writerWrapper_Write_exact, Hw.
  simpl. by rewrite app_nil_r.
Qed.

(** X12.  Logging a record with a nil data map through a logger whose first
    base option is [WithData] or [WithLevel] panics with the run-time error
    of an assignment to a nil map, and nothing is written. *)
Theorem LoggerFunc_nil_data_panics (dl : DefaultLogger) (l : Log)
    (rest : list LogOption) (w : World) :
  Data l = None ->
  (exists key value, BaseOptions dl = WithData key value :: rest)
  \/ (exists lvl, BaseOptions dl = WithLevel lvl :: rest) ->
  (LoggerFunc dl).1 l w
  = (Panic (PanicRuntime "assignment to entry in nil map"), w).
Proof.
  intros Hnil Hbase. rewrite LoggerFunc_run.
  destruct Hbase as [(key & value & ->)|(lvl & ->)]; simpl;
    unfold bind, WithData, WithLevel, set_Data, bind; by rewrite Hnil.
Qed.

(** X13.  The base options run at every call, after the options the record
    was built with: when the last base option sets [k], the record that
    leaves the call holds the value of the base option under [k], whatever
    the caller had put there.  The serializer is one that returns and leaves
    the record and the world alone, as [AsSingleLine] does. *)
Theorem LoggerFunc_base_option_wins (dl : DefaultLogger)
    (pre : list LogOption) (o : LogOption) (k : string) (f : World -> any)
    (l l1 : Log) (w w1 : World) :
  BaseOptions dl = pre ++ [o] ->
  sets_key o k f ->
  apply_options pre l w = (Ok l1, w1) -> is_Some (Data l1) ->
  (forall l' w', exists ser, Serializer_ dl l' w' = (Ok (l', ser), w')) ->
  exists l2 err w3,
    (LoggerFunc dl).1 l w = (Ok (l2, err), w3)
    /\ map_index (Data l2) k = Some (f w1).
Proof.
  intros Hbase Hset Hpre Hl1 Hser.
  destruct (Hset l1 w1 Hl1) as (l2 & w2 & Hrun & Hk).
  destruct (Hser l2 w2) as (ser & Hs).
  rewrite LoggerFunc_run, Hbase, apply_options_app, Hpre. simpl.
  unfold bind. rewrite Hrun. unfold ret. rewrite Hs, writerWrapper_Write_exact.
  by eexists _, _, _.
Qed.

(** X14.  A logger with [AsSingleLine] and base options that each return and
    touch only keys of [ks] never panics on a record with a data map; the
    record comes back with its message and every key outside [ks] as
    before. *)
Theorem AsSingleLine_logger_returns (dl : DefaultLogger)
    (fmt_Sprintf_q_v : string -> data -> string) (ks : list string)
    (l : Log) (w : World) :
  Serializer_ dl = AsSingleLine fmt_Sprintf_q_v ->
  Forall (fun o => touches_only o ks) (BaseOptions dl) ->
  is_Some (Data l) ->
  exists l' err w',
    (LoggerFunc dl).1 l w = (Ok (l', err), w')
    /\ Message l' = Message l /\ is_Some (Data l')
    /\ forall k, k ∉ ks -> map_index (Data l') k = map_index (Data l) k.
Proof.
  intros Hser Hopts Hl.
  destruct (apply_options_touches ks _ Hopts l w Hl)
    as (l1 & w1 & Hrun & Hm & Hd & Hk).
  rewrite LoggerFunc_run, Hrun, Hser. unfold AsSingleLine, ret.
  rewrite writerWrapper_Write_exact. by eexists _, _, _.
Qed.

End LoggerMore.


Section AggregatorApp.
Context `{Env}.
Import Facade.

Lemma responses_app (ww1 ww2 : writerWrapper) (b : bytes) :
  forall w,
    responses (ww1 ++ ww2) b w
    = responses ww1 b w
      ++ responses ww2 b (w ++ attempts ww1 b (responses ww1 b w)).
Proof.
  induction ww1 as [|s ww1 IH]; intros w; simpl.
  - by rewrite app_nil_r.
  - rewrite IH. by rewrite <- app_assoc.
Qed.

Lemma attempts_app (ww1 ww2 : writerWrapper) (b : bytes)
    (rs1 rs2 : list (int * option error)) :
  length ww1 = length rs1 ->
  attempts (ww1 ++ ww2) b (rs1 ++ rs2)
  = attempts ww1 b rs1 ++ attempts ww2 b rs2.
Proof. intros Hlen. unfold attempts. by apply zip_with_app. Qed.

Lemma Zsum_app (l1 l2 : list Z) : Zsum (l1 ++ l2) = Zsum l1 + Zsum l2.
Proof. induction l1 as [|z l1 IH]; simpl; [done|]. rewrite IH. lia. Qed.

Lemma int_wrap_add_r (a b : Z) : int_wrap (a + int_wrap b) = int_wrap (a + b).
Proof. by rewrite Z.add_comm, int_wrap_add_l, Z.add_comm. Qed.

(** X3.  Writing through the wrapper of [ww1 ++ ww2] is writing through
    [ww1], then through [ww2]: the same world at the end, the sum of the two
    counts, no error exactly when neither returned one, and when both did, the
    two messages joined with a comma and a space. *)
Theorem writerWrapper_Write_app (ww1 ww2 : writerWrapper) (b : bytes)
    (w w1 w2 : World) (n1 n2 : int) (err1 err2 : option error) :
  writerWrapper_Write ww1 b w = (Ok (n1, err1), w1) ->
  writerWrapper_Write ww2 b w1 = (Ok (n2, err2), w2) ->
  exists err,
    writerWrapper_Write (ww1 ++ ww2) b w = (Ok (int_add n1 n2, err), w2)
    /\ (err = None <-> err1 = None /\ err2 = None)
    /\ (forall e1 e2, err1 = Some e1 -> err2 = Some e2 ->
          exists e, err = Some e /\ Error e = Error e1 +:+ ", " +:+ Error e2).
Proof.
  rewrite !writerWrapper_Write_exact. intros [= <- <- <-] [= <- <- <-].
  rewrite responses_app.
  set (rs1 := responses ww1 b w).
  set (rs2 := responses ww2 b (w ++ attempts ww1 b rs1)).
  rewrite attempts_app by (symmetry; apply responses_length).
  rewrite fmap_app, Zsum_app, omap_app, app_assoc.
  unfold int_add. rewrite int_wrap_add_l, int_wrap_add_r.
  eexists. split; [reflexivity|].
  destruct (omap snd rs1) as [|a1 es1], (omap snd rs2) as [|a2 es2]; simpl;
    (split; [split; [intros ?; done | intros [? ?]; done]|]);
    intros e1 e2 ? ?; simplify_eq.
  eexists. split; [done|].
  exact (errWrapper_Error_app (a1 :: es1) (a2 :: es2) ltac:(done) ltac:(done)).
Qed.

End AggregatorApp.

Section NewMore.
Context `{Env}.
Import LevelAware.

(** X22.  For a level of the declared range, [New] with a list of [WithData]
    options reads the clock once and returns the record with that time, the
    label of the level, the message and the pairs given, the last value
    standing for a key given more than once. *)
Theorem New_WithData_list (lvl : Level) (msg : string)
    (kvs : list (string * any)) (w : World) :
  0 <= lvl <= 5 ->
  New lvl msg ((fun kv => WithData kv.1 kv.2) <$> kvs) w
  = (Ok {| CreatedAt := clock w; Level_ := label_of lvl; Message := msg;
           Data := Some (list_to_map (reverse kvs)) |},
     w ++ [EvNow (clock w)]).
Proof.
  intros Hl. unfold New, bind, time_Now.
  rewrite LevelLabels_index_in by done.
  assert (Hgen : forall (m : gmap string any) w',
    apply_options ((fun kv => WithData kv.1 kv.2) <$> kvs)
      {| CreatedAt := clock w; Level_ := label_of lvl; Message := msg;
         Data := Some m |} w'
    = (Ok {| CreatedAt := clock w; Level_ := label_of lvl; Message := msg;
             Data := Some (list_to_map (reverse kvs) ∪ m) |}, w')).
  { induction kvs as [|[k v] kvs IH]; intros m w'.
    - simpl. by rewrite (left_id_L ∅ (∪)).
    - simpl. unfold bind, WithData. rewrite (set_Data_run' _ m) by done.
      simpl. rewrite IH. do 3 f_equal.
      rewrite reverse_cons, list_to_map_app. simpl.
      rewrite <- (assoc_L (∪)). f_equal.
      by rewrite insert_empty, <- insert_union_singleton_l. }
  rewrite Hgen. by rewrite (right_id_L ∅ (∪)).
Qed.

End NewMore.


(** ** The listing of a file system *)

Lemma fsnode_nested_ind (P : fsnode -> Prop) :
  (forall name info, P (File name info)) ->
  (forall name readdir_err dirs, Forall P dirs -> P (Dir name readdir_err dirs)) ->
  forall d, P d.
Proof.
  intros Hfile Hdir. fix IH 1. intros [name info|name readdir_err dirs].
  - apply Hfile.
  - apply Hdir. induction dirs as [|d dirs IHdirs]; constructor.
    + apply IH.
    + apply IHdirs.
Qed.

Lemma walkDir_Dir (name n : string) (dirs : list fsnode)
    (files : list FileInfo) :
  walkDir collect name (Dir n None dirs) files
  = (fix range (dirs : list fsnode) (s : list FileInfo) :=
       match dirs with
       | [] => (None, s)
       | d1 :: rest =>
           match walkDir collect (path_Join name (Name d1)) d1 s with
           | (Some err, s) =>
               if is_SkipDir err then (None, s) else (Some err, s)
           | (None, s) => range rest s
           end
       end) dirs files.
Proof. reflexivity. Qed.

Lemma walkDir_healthy (d : fsnode) :
  forall name files, healthy d = true ->
    walkDir collect name d files = (None, files ++ files_of name d).
Proof.
  induction d as [n info|n readdir_err dirs IH] using fsnode_nested_ind;
    intros name files Hd.
  - destruct info as [e|size]; [done|]. reflexivity.
  - destruct readdir_err as [e|]; [done|]. rewrite walkDir_Dir.
    simpl in Hd. simpl files_of. revert files.
    induction dirs as [|d1 dirs IHdirs]; intros files.
    + by rewrite app_nil_r.
    + apply andb_prop in Hd as [Hd1 Hdirs]. inversion IH as [|? ? IH1 IHrest]; subst.
      rewrite (IH1 _ _ Hd1). rewrite (IHdirs IHrest Hdirs).
      simpl. by rewrite app_assoc.
Qed.

Lemma walkDir_sublist (d : fsnode) :
  forall name files, exists err found,
    walkDir collect name d files = (err, files ++ found)
    /\ sublist found (files_of name d).
Proof.
  induction d as [n info|n readdir_err dirs IH] using fsnode_nested_ind;
    intros name files.
  - destruct info as [e|size]; simpl.
    + destruct (is_SkipDir e); eexists _, []; by rewrite app_nil_r.
    + by eexists _, [_].
  - destruct readdir_err as [e|].
    + simpl. destruct (is_SkipDir e); eexists _, []; rewrite app_nil_r;
        (split; [done | apply sublist_nil_l]).
    + rewrite walkDir_Dir. simpl files_of. revert files.
      induction dirs as [|d1 dirs IHdirs]; intros files.
      * eexists _, []. by rewrite app_nil_r.
      * inversion IH as [|? ? IH1 IHrest]; subst.
        destruct (IH1 (path_Join name (Name d1)) files)
          as (err1 & found1 & Hrun1 & Hsub1).
        rewrite Hrun1. simpl.
        destruct err1 as [e|].
        -- exists (if is_SkipDir e then None else Some e), found1.
           split; [by destruct (is_SkipDir e)|].
           by apply sublist_inserts_r.
        -- destruct (IHdirs IHrest (files ++ found1))
             as (err2 & found2 & Hrun2 & Hsub2).
           exists err2, (found1 ++ found2). rewrite Hrun2, app_assoc.
           split; [done|]. by apply sublist_app.
Qed.

(** X15.  On a tree in which every [ReadDir] and [Info] succeeds, [WithFS] and
    [WithFSys] leave under the key the whole listing: every file of the tree,
    in the order of the walk, with its path and size, and no directory. *)
Theorem WithFS_lists_all_files (key : string) (d : fsnode)
    (l : LevelAware.Log) (l' : Facade.Log) (w : World) :
  healthy d = true ->
  is_Some (LevelAware.Data l) -> is_Some (Facade.Data l') ->
  (exists l1, LevelAware.WithFS key (inr d) l w = (Ok l1, w)
     /\ map_index (LevelAware.Data l1) key = Some (AFiles (files_of "." d)))
  /\ (exists l1, Facade.WithFSys (inr d) l' w = (Ok l1, w)
        /\ map_index (Facade.Data l1) Facade.DataKeyFSys
           = Some (AFiles (files_of "." d))).
Proof.
  intros Hd [m Hm] [m' Hm'].
  assert (Hwalk : WalkDir collect (inr d) "." [] = (None, files_of "." d)).
  { unfold WalkDir. by rewrite walkDir_healthy. }
  split.
  - rewrite (WithFS_run _ _ _ m) by done. rewrite Hwalk.
    eexists. split; [done|]. apply lookup_insert_eq.
  - rewrite (WithFSys_run _ _ m') by done. rewrite Hwalk.
    eexists. split; [done|]. apply lookup_insert_eq.
Qed.

(** X16.  On every file system, [WithFS] and [WithFSys] return on a record
    with a data map and leave a list under the key: the empty list when the
    root cannot be examined, else a sub-sequence of the files of the tree in
    the order of the walk. *)
Theorem WithFS_lists_only_files (key : string) (fsys : FS)
    (l : LevelAware.Log) (l' : Facade.Log) (w : World) :
  is_Some (LevelAware.Data l) -> is_Some (Facade.Data l') ->
  exists found,
    (exists l1, LevelAware.WithFS key fsys l w = (Ok l1, w)
       /\ map_index (LevelAware.Data l1) key = Some (AFiles found))
    /\ (exists l1, Facade.WithFSys fsys l' w = (Ok l1, w)
          /\ map_index (Facade.Data l1) Facade.DataKeyFSys
             = Some (AFiles found))
    /\ match fsys with
       | inl _ => found = []
       | inr d => sublist found (files_of "." d)
       end.
Proof.
  intros [m Hm] [m' Hm'].
  exists (WalkDir collect fsys "." []).2. split; [|split].
  - rewrite (WithFS_run _ _ _ m) by done.
    eexists. split; [done|]. apply lookup_insert_eq.
  - rewrite (WithFSys_run _ _ m') by done.
    eexists. split; [done|]. apply lookup_insert_eq.
  - destruct fsys as [e|d]; unfold WalkDir.
    + simpl. by destruct (is_SkipDir e || is_SkipAll e).
    + destruct (walkDir_sublist d "." []) as (err & found & -> & Hsub).
      simpl. destruct err as [e|]; [|done].
      by destruct (is_SkipDir e || is_SkipAll e).
Qed.



(** ** More on [JSONLogger] *)

Section JSONLoggerMore.
Context `{Env}.
Import LevelAware.
Variable json_MarshalIndent : Log -> error + bytes.

Lemma retried_events (s : Writer) (b : bytes) (w : World) (k : nat)
    (ok : bool) (w' : World) :
  retried s b w k ok w' ->
  exists evs, w' = w ++ evs /\ length evs = k
    /\ Forall (fun ev => exists n err, ev = EvWrite s b n err) evs.
Proof.
  induction 1 as [|k w' n err _ (evs & -> & Hlen & Hall) Hw
                  |k w' n _ (evs & -> & Hlen & Hall) Hw].
  - exists []. by rewrite app_nil_r.
  - exists (evs ++ [EvWrite s b n (Some err)]).
    rewrite app_assoc, length_app, Hlen. simpl.
    split; [done|]. split; [lia|]. apply Forall_app. split; [done|].
    constructor; [by eexists _, _ | constructor].
  - exists (evs ++ [EvWrite s b n None]).
    rewrite app_assoc, length_app, Hlen. simpl.
    split; [done|]. split; [lia|]. apply Forall_app. split; [done|].
    constructor; [by eexists _, _ | constructor].
Qed.

(** X17.  Whatever [tries] is, [JSONLogger.Log] returns nil and writes at most
    [tries] times, never when [tries <= 0] or when the record cannot be
    serialized; every write is to the sink of the logger and carries the
    serialized record, a comma and a line feed. *)
Theorem JSONLogger_Log_writes (jfl : JSONLogger) (l : Log) (w : World) :
  exists evs,
    JSONLogger_Log json_MarshalIndent jfl l w = (Ok None, w ++ evs)
    /\ (length evs <= Z.to_nat (tries jfl))%nat
    /\ (tries jfl <= 0 -> evs = [])
    /\ match json_MarshalIndent l with
       | inl _ => evs = []
       | inr b =>
           Forall (fun ev => exists n err,
                     ev = EvWrite (out jfl) (b ++ [x2c; x0a]%byte) n err) evs
       end.
Proof.
  unfold JSONLogger_Log, bind.
  destruct (json_MarshalIndent l) as [e|b] eqn:Hj.
  - rewrite (Log_for_unencodable _ _ _ _ e) by done.
    exists []. rewrite app_nil_r. repeat split; simpl; lia || done.
  - destruct (Log_for_retried json_MarshalIndent jfl l b w Hj
                (Z.to_nat (tries jfl)) 0 w (retried_none _ _ _))
      as (k & ok & w' & Hrun & Hret & Hle & _).
    destruct (retried_events _ _ _ _ _ _ Hret) as (evs & -> & Hlen & Hall).
    exists evs. rewrite Hrun. simpl in Hlen.
    repeat split; [lia | | done].
    intros Hz. destruct evs; [done|]. simpl in Hlen. lia.
Qed.

(** X18.  When [tries >= 1], the record can be serialized and the sink takes
    the first write, [JSONLogger.Log] writes once and returns nil. *)
Theorem JSONLogger_Log_first_success (jfl : JSONLogger) (l : Log) (b : bytes)
    (n : int) (w : World) :
  1 <= tries jfl ->
  json_MarshalIndent l = inr b ->
  sink_Write (out jfl) w (b ++ [x2c; x0a]%byte) = (n, None) ->
  JSONLogger_Log json_MarshalIndent jfl l w
  = (Ok None, w ++ [EvWrite (out jfl) (b ++ [x2c; x0a]%byte) n None]).
Proof.
  intros Ht Hj Hw. unfold JSONLogger_Log, bind.
  destruct (Z.to_nat (tries jfl)) as [|rounds] eqn:Hr; [lia|].
  simpl. rewrite Hj. unfold bind, Writer_Write. by rewrite Hw.
Qed.

(** X19.  When [NewJSONLogger] returns a logger, it has made the directory or
    found it existing, read the clock and created the file named after the
    directory and the seconds of the clock, and nothing else; the logger
    writes to that file and retries 5 times. *)
Theorem NewJSONLogger_success (dirname : string) (w w' : World)
    (jfl : JSONLogger) :
  NewJSONLogger dirname w = (Ok (inr jfl), w') ->
  exists made now,
    w' = w ++ [EvMkdir dirname made; EvNow now;
               EvCreate (dirname +:+ "/logs." +:+ strconv_Itoa (Unix now)
                         +:+ ".txt") (inr (out jfl))]
    /\ (made = None \/ exists e, made = Some e /\ is_ErrExist e = true)
    /\ now = clock (w ++ [EvMkdir dirname made])
    /\ tries jfl = 5.
Proof.
  unfold NewJSONLogger, bind, os_Mkdir, time_Now, os_Create, ret.
  destruct (mkdir dirname w) as [e|] eqn:Hmk;
    [destruct (is_ErrExist e) eqn:He; [|discriminate]|];
    match goal with
    | |- context [create ?name ?w1] => destruct (create name w1) as [err|f] eqn:Hc
    end; try discriminate; intros [= <- <-];
    eexists _, _; rewrite <- !app_assoc; simpl;
    (split; [reflexivity|]); (split; [|done]); eauto.
Qed.

(** X20.  When [NewJSONLogger] returns an error, either [Mkdir] failed with an
    error that is not [ErrExist] and nothing else was attempted, or the
    creation of the file failed; the message says which, followed by the
    message of the cause. *)
Theorem NewJSONLogger_failure (dirname : string) (w w' : World) (err : error) :
  NewJSONLogger dirname w = (Ok (inl err), w') ->
  (exists e,
      mkdir dirname w = Some e /\ is_ErrExist e = false
      /\ err = errorString ("failed to make directory: " +:+ Error e)
      /\ w' = w ++ [EvMkdir dirname (Some e)])
  \/ (exists e made now name,
        err = errorString ("failed to make create log file: " +:+ Error e)
        /\ w' = w ++ [EvMkdir dirname made; EvNow now; EvCreate name (inl e)]).
Proof.
  unfold NewJSONLogger, bind, os_Mkdir, time_Now, os_Create, ret.
  destruct (mkdir dirname w) as [e|] eqn:Hmk;
    [destruct (is_ErrExist e) eqn:He|].
  - destruct (create _ _) as [e'|f] eqn:Hc; [|discriminate].
    intros [= <- <-]. right. eexists _, _, _, _.
    rewrite <- !app_assoc. simpl. done.
  - intros [= <- <-]. left. by eexists.
  - destruct (create _ _) as [e'|f] eqn:Hc; [|discriminate].
    intros [= <- <-]. right. eexists _, _, _, _.
    rewrite <- !app_assoc. simpl. done.
Qed.

End JSONLoggerMore.

(** ** The labels of the levels *)

(** X21.  [LogLevel.String] gives different labels to different levels. *)
Theorem labels_distinct (lvl1 lvl2 : Facade.LogLevel) (s : string)
    (w1 w2 w1' w2' : World) :
  Facade.LogLevel_String lvl1 w1 = (Ok s, w1') ->
  Facade.LogLevel_String lvl2 w2 = (Ok s, w2') ->
  lvl1 = lvl2.
Proof.
  intros H1 H2.
  destruct (decide (0 <= lvl1 <= 5)) as [Hr1|Hr1];
    [|by rewrite LogLevel_String_out in H1].
  destruct (decide (0 <= lvl2 <= 5)) as [Hr2|Hr2];
    [|by rewrite LogLevel_String_out in H2].
  rewrite LogLevel_String_in in H1, H2 by done.
  injection H1 as <- _. injection H2 as H2 _.
  assert (Hc1 : lvl1 = 0 \/ lvl1 = 1 \/ lvl1 = 2 \/ lvl1 = 3 \/ lvl1 = 4
                \/ lvl1 = 5) by lia.
  assert (Hc2 : lvl2 = 0 \/ lvl2 = 1 \/ lvl2 = 2 \/ lvl2 = 3 \/ lvl2 = 4
                \/ lvl2 = 5) by lia.
  destruct Hc1 as [->|[->|[->|[->|[->| ->]]]]];
    destruct Hc2 as [->|[->|[->|[->|[->| ->]]]]]; done.
Qed.

(** * The further properties at concrete inputs *)

Section MoreWitnesses.
Import Demo.

Lemma errWrapper_Error_app_witness :
  Error (errWrapper ([errorString "disk full"]
                     ++ [errorString "closed"; errorString "timeout"]))
  = "disk full" +:+ ", " +:+ "closed, timeout".
Proof.
  exact (errWrapper_Error_app [errorString "disk full"]
           [errorString "closed"; errorString "timeout"]
           ltac:(discriminate) ltac:(discriminate)).
Defined.

Lemma writerWrapper_Write_full_count_witness :
  exists w',
    Facade.writerWrapper_Write [0%nat; 3%nat] [x68; x69]%byte []
    = (Ok (Z.of_nat 2 * Z.of_nat 2, None), w').
Proof.
  refine (writerWrapper_Write_full_count [0%nat; 3%nat] [x68; x69]%byte [] _ _).
  - intros s w' Hs.
    apply elem_of_cons in Hs as [->|Hs]; [reflexivity|].
    apply elem_of_cons in Hs as [->|Hs]; [reflexivity|].
    by apply elem_of_nil in Hs.
  - vm_compute. split; discriminate.
Defined.

Lemma writerWrapper_Write_app_witness :
  exists n1 n2 err1 err2 w1 w2 err,
    Facade.writerWrapper_Write [1%nat] [x68; x69]%byte [] = (Ok (n1, err1), w1)
    /\ Facade.writerWrapper_Write [0%nat; 2%nat] [x68; x69]%byte w1
       = (Ok (n2, err2), w2)
    /\ Facade.writerWrapper_Write ([1%nat] ++ [0%nat; 2%nat]) [x68; x69]%byte []
       = (Ok (int_add n1 n2, err), w2)
    /\ (err = None <-> err1 = None /\ err2 = None)
    /\ (forall e1 e2, err1 = Some e1 -> err2 = Some e2 ->
          exists e, err = Some e /\ Error e = Error e1 +:+ ", " +:+ Error e2).
Proof.
  pose proof (writerWrapper_Write_app [1%nat] [0%nat; 2%nat] [x68; x69]%byte
                [] _ _ _ _ _ _ eq_refl eq_refl) as (err & Happ).
  eexists _, _, _, _, _, _, err. split; [reflexivity|]. split; [reflexivity|].
  exact Happ.
Defined.

Lemma NewLog_keeps_message_witness :
  exists l w',
    Facade.NewLog "hey"
      [Facade.WithData "user" (AString "ada"); Facade.WithLevel "INFO"] []
    = (Ok l, w')
    /\ Facade.Message l = "hey" /\ is_Some (Facade.Data l)
    /\ forall k, k ∉ ["user"; Facade.DataKeyLevel] ->
         map_index (Facade.Data l) k = None.
Proof.
  refine (NewLog_keeps_message "hey" ["user"; Facade.DataKeyLevel] _ [] _).
  repeat constructor.
  - apply (touches_only_weaken _ ["user"]); [|apply WithData_touches_only].
    intros k Hk. apply list_elem_of_singleton in Hk as ->. by left.
  - apply (touches_only_weaken _ [Facade.DataKeyLevel]);
      [|apply WithLevel_touches_only].
    intros k Hk. apply list_elem_of_singleton in Hk as ->. right. by left.
Defined.

Lemma WithData_commute_witness :
  Facade.apply_options
    [Facade.WithData "a" (AInt 1); Facade.WithData "b" (AInt 2)] hey []
  = Facade.apply_options
      [Facade.WithData "b" (AInt 2); Facade.WithData "a" (AInt 1)] hey [].
Proof.
  exact (WithData_commute "a" "b" (AInt 1) (AInt 2) hey [] ltac:(discriminate)).
Defined.

Lemma WithSrc_both_or_neither_witness :
  Facade.WithSrc (H := readonly) hey [] = (Ok hey, [])
  /\ Facade.WithSrc hey []
     = (Ok {| Facade.Message := "hey";
              Facade.Data :=
                Some (<[Facade.DataKeySrcFileLine := AString "/src/main.go:45"]>
                        (<[Facade.DataKeySrcFunction := AString "main.main"]> ∅))
           |}, [])
  /\ Facade.WithSrc no_data []
     = (Panic (PanicRuntime "assignment to entry in nil map"), []).
Proof.
  split; [|split].
  - exact (proj1 (WithSrc_both_or_neither (H := readonly) hey []) eq_refl).
  - exact (proj1 (proj2 (WithSrc_both_or_neither hey []))
             "main.main" "/src/main.go" 45 ∅ eq_refl eq_refl).
  - exact (proj2 (proj2 (WithSrc_both_or_neither no_data []))
             "main.main" "/src/main.go" 45 eq_refl eq_refl).
Defined.

Lemma WithSourceCodeLocation_frame_witness :
  LevelAware.WithSourceCodeLocation "src" 1 disk_error [] = (Ok disk_error, [])
  /\ exists l',
       LevelAware.WithSourceCodeLocation "src" 0 disk_error [] = (Ok l', [])
       /\ map_index (LevelAware.Data l') "src"
          = Some (AString "main.main at /src/main.go:45").
Proof.
  split.
  - exact (proj1 (WithSourceCodeLocation_frame (H := env) "src" 1 disk_error [])
             ltac:(vm_compute; reflexivity)).
  - destruct (proj2 (WithSourceCodeLocation_frame (H := env) "src" 0 disk_error [])
                "main.main" "/src/main.go" 45 ∅
                ltac:(vm_compute; reflexivity) eq_refl)
      as (l' & Hrun & Hkey & _).
    exists l'. split; [exact Hrun | exact Hkey].
Defined.

Lemma LoggerFunc_error_witness :
  exists ser err w3,
    Facade.Serializer_ two_sinks hey_info [] = (Ok (hey_info, ser), [])
    /\ (Facade.LoggerFunc two_sinks).1 hey [] = (Ok (hey_info, err), w3)
    /\ (err = None <->
        Forall (fun r => r.2 = None)
          (Facade.responses [0%nat; 1%nat] (Facade.framed two_sinks ser) []))
    /\ (forall e, err = Some e ->
          Error e
          = String.concat ", "
              (Error <$> omap snd
                 (Facade.responses [0%nat; 1%nat]
                    (Facade.framed two_sinks ser) []))).
Proof.
  pose proof (LoggerFunc_error two_sinks hey hey_info hey_info _ [] [] []
                ltac:(vm_compute; reflexivity) eq_refl)
    as (err & w3 & Hrun & Hnil & Hmsg).
  eexists _, err, w3. split; [reflexivity|]. split; [exact Hrun|].
  split; [exact Hnil | exact Hmsg].
Defined.

Lemma LoggerFunc_no_writers_witness :
  (Facade.LoggerFunc no_sinks).1 hey [] = (Ok (hey, None), []).
Proof.
  exact (LoggerFunc_no_writers no_sinks hey hey hey _ [] [] []
           eq_refl eq_refl eq_refl).
Defined.

Lemma LoggerFunc_nil_data_panics_witness :
  (Facade.LoggerFunc two_sinks).1 no_data []
  = (Panic (PanicRuntime "assignment to entry in nil map"), []).
Proof.
  refine (LoggerFunc_nil_data_panics two_sinks no_data [] [] eq_refl _).
  right. by exists "INFO".
Defined.

Lemma LoggerFunc_base_option_wins_witness :
  exists l2 err w3,
    (Facade.LoggerFunc single_line).1 hey_debug [] = (Ok (l2, err), w3)
    /\ map_index (Facade.Data l2) Facade.DataKeyLevel = Some (AString "INFO").
Proof.
  refine (LoggerFunc_base_option_wins single_line [] (Facade.WithLevel "INFO")
            Facade.DataKeyLevel (fun _ => AString "INFO") hey_debug hey_debug
            [] [] eq_refl (WithLevel_sets_key "INFO") eq_refl _ _).
  - by eexists.
  - intros l' w'. by eexists.
Defined.

Lemma AsSingleLine_logger_returns_witness :
  exists l' err w',
    (Facade.LoggerFunc single_line).1 hey_debug [] = (Ok (l', err), w')
    /\ Facade.Message l' = "hey" /\ is_Some (Facade.Data l')
    /\ forall k, k ∉ [Facade.DataKeyLevel] ->
         map_index (Facade.Data l') k = map_index (Facade.Data hey_debug) k.
Proof.
  refine (AsSingleLine_logger_returns single_line fmt_Sprintf_q_v
            [Facade.DataKeyLevel] hey_debug [] eq_refl _ _).
  - repeat constructor. apply WithLevel_touches_only.
  - by eexists.
Defined.

Lemma WithFS_lists_all_files_witness :
  (exists l1, LevelAware.WithFS "fs" (inr tree) disk_error [] = (Ok l1, [])
     /\ map_index (LevelAware.Data l1) "fs"
        = Some (AFiles [{| Path := "a.txt"; Size := 3 |};
                        {| Path := "sub/b.txt"; Size := 5 |}]))
  /\ (exists l1, Facade.WithFSys (inr tree) hey [] = (Ok l1, [])
        /\ map_index (Facade.Data l1) Facade.DataKeyFSys
           = Some (AFiles [{| Path := "a.txt"; Size := 3 |};
                           {| Path := "sub/b.txt"; Size := 5 |}])).
Proof.
  refine (WithFS_lists_all_files "fs" tree disk_error hey [] eq_refl _ _);
    by eexists.
Defined.

Lemma WithFS_lists_only_files_witness :
  exists found,
    (exists l1, LevelAware.WithFS "fs" broken_fs disk_error [] = (Ok l1, [])
       /\ map_index (LevelAware.Data l1) "fs" = Some (AFiles found))
    /\ (exists l1, Facade.WithFSys broken_fs hey [] = (Ok l1, [])
          /\ map_index (Facade.Data l1) Facade.DataKeyFSys
             = Some (AFiles found))
    /\ sublist found [{| Path := "a.txt"; Size := 3 |};
                      {| Path := "c.txt"; Size := 7 |}].
Proof.
  refine (WithFS_lists_only_files "fs" broken_fs disk_error hey [] _ _);
    by eexists.
Defined.

Lemma JSONLogger_Log_first_success_witness :
  exists b n,
    json_MarshalIndent' disk_error = inr b
    /\ LevelAware.JSONLogger_Log json_MarshalIndent' to_file disk_error []
       = (Ok None, [EvWrite 0%nat (b ++ [x2c; x0a]%byte) n None]).
Proof.
  eexists _, _. split; [reflexivity|].
  refine (JSONLogger_Log_first_success json_MarshalIndent' to_file disk_error
            _ _ [] _ eq_refl eq_refl).
  vm_compute. discriminate.
Defined.

Lemma NewJSONLogger_success_witness :
  exists made now,
    [EvMkdir "logs" None; EvNow 1700000000000000001;
     EvCreate "logs/logs.1700000000.txt" (inr 0%nat)]
    = [] ++ [EvMkdir "logs" made; EvNow now;
             EvCreate ("logs" +:+ "/logs." +:+ strconv_Itoa (Unix now)
                       +:+ ".txt") (inr (LevelAware.out to_file))]
    /\ (made = None \/ exists e, made = Some e /\ is_ErrExist e = true)
    /\ now = clock ([] ++ [EvMkdir "logs" made])
    /\ LevelAware.tries to_file = 5.
Proof.
  refine (NewJSONLogger_success "logs" [] _ to_file _).
  vm_compute. reflexivity.
Defined.

Lemma NewJSONLogger_failure_witness :
  (exists e,
      mkdir (Env := readonly) "logs" [] = Some e
      /\ is_ErrExist (Env := readonly) e = false
      /\ errorString
           "failed to make directory: mkdir: read-only file system"
         = errorString ("failed to make directory: " +:+ Error e)
      /\ [EvMkdir "logs" (Some (errorString "mkdir: read-only file system"))]
         = [] ++ [EvMkdir "logs" (Some e)])
  \/ (exists e made now name,
        errorString "failed to make directory: mkdir: read-only file system"
        = errorString ("failed to make create log file: " +:+ Error e)
        /\ [EvMkdir "logs" (Some (errorString "mkdir: read-only file system"))]
           = [] ++ [EvMkdir "logs" made; EvNow now; EvCreate name (inl e)]).
Proof.
  refine (NewJSONLogger_failure (H := readonly) "logs" [] _ _ _).
  vm_compute. reflexivity.
Defined.

Lemma labels_distinct_witness :
  Facade.LogLevel_String Facade.LevelInfo [] = (Ok "INFO", [])
  /\ Facade.LevelInfo = 2.
Proof.
  split; [reflexivity|].
  exact (labels_distinct Facade.LevelInfo 2 "INFO" [] [] [] []
           eq_refl eq_refl).
Defined.

Lemma New_WithData_list_witness :
  LevelAware.New LevelAware.LevelWarn "slow"
    ((fun kv => LevelAware.WithData kv.1 kv.2)
       <$> [("ms", AInt 1); ("ms", AInt 250)]) []
  = (Ok {| LevelAware.CreatedAt := clock [];
           LevelAware.Level_ := "WARN";
           LevelAware.Message := "slow";
           LevelAware.Data :=
             Some (list_to_map (reverse [("ms", AInt 1); ("ms", AInt 250)])) |},
     [] ++ [EvNow (clock [])]).
Proof.
  refine (New_WithData_list LevelAware.LevelWarn "slow"
            [("ms", AInt 1); ("ms", AInt 250)] [] _).
  unfold LevelAware.LevelWarn. lia.
Defined.

End MoreWitnesses.
